(** * The write path of the datastore service: translation of request events,
      database retries, and the thread-affine connection handler.

    Shallow embedding of
      - datastore/writer/postgresql_backend/event_translator.py
      - datastore/shared/postgresql_backend/pg_connection_handler.py
    Python dictionaries that the code iterates over are association lists in
    insertion order; the [models] dictionary, which is only indexed, is a
    finite map.  Exceptions are an explicit result type. *)

From Stdlib Require Import ZArith Lia.
From stdpp Require Import base option list strings gmap.
From Equations Require Import Equations.

Local Open Scope string_scope.
Local Open Scope list_scope.

(** ** Python values and exceptions *)

#[local] Set Warnings "-register-all".

(** JSON-typed values ([datastore.shared.typing.JSON]); [JNull] is Python's
    [None].  The code never looks inside a number, so integers stand for all
    of them. *)
Inductive JSON : Type :=
| JNull
| JBool (b : bool)
| JNum (n : Z)
| JStr (s : string)
| JList (items : list JSON)
| JObj (members : list (string * JSON)).

(** A dictionary with string keys, in insertion order. *)
Abbreviation Dict V := (list (string * V)) (only parsing).

Abbreviation Fqid := string (only parsing).
Abbreviation Model := (Dict JSON) (only parsing).

(** [d.get(key)]: the value of the first (only) entry for [key]. *)
Fixpoint dict_get {V} (key : string) (d : Dict V) : option V :=
  match d with
  | [] => None
  | (k, v) :: rest => if decide (k = key) then Some v else dict_get key rest
  end.

(** [list(d.keys())] *)
Definition dict_keys {V} (d : Dict V) : list string := map fst d.

(** Truth value of a container: non-empty. *)
Definition truthy {A} (l : list A) : bool :=
  match l with [] => false | _ :: _ => true end.

(** [v is None], [v is True], [v is False] *)
Definition is_None (v : JSON) : bool :=
  match v with JNull => true | _ => false end.
Definition is_True (v : JSON) : bool :=
  match v with JBool true => true | _ => false end.
Definition is_False (v : JSON) : bool :=
  match v with JBool false => true | _ => false end.

(** The errors a psycopg2 call can raise, as far as the handler looks at them:
    the class and the SQL state code. *)
Inductive PgClass : Type :=
| OperationalError
| InterfaceError
| OtherPgError.

Record PgError : Type := mkPgError {
  pg_class : PgClass;
  pgcode : option string
}.

(** What [DatabaseError.base_exception] may hold: nothing, a psycopg2 error
    with its class and code, a [psycopg2.pool.PoolError] (a subclass of
    [psycopg2.Error] that is no [OperationalError]), or some other exception
    object. *)
Inductive BaseException : Type :=
| NoBase
| PgBase (e : PgError)
| PoolBase
| ForeignBase.

Inductive Exception : Type :=
| ModelExists (fqid : Fqid)
| ModelDoesNotExist (fqid : Fqid)
| ModelNotDeleted (fqid : Fqid)
| BadCodingError
| KeyError (key : string)
| DatabaseError (base : BaseException)
| PoolError
| Psycopg2Error (e : PgError)
| ValueError
| OtherException (tag : nat).

Inductive Result (A : Type) : Type :=
| Return (a : A)
| Raise (e : Exception).
Arguments Return {A} a.
Arguments Raise {A} e.

Definition bind {A B} (r : Result A) (k : A → Result B) : Result B :=
  match r with
  | Return a => k a
  | Raise e => Raise e
  end.

#[global] Instance result_bind : MBind Result := fun _ _ k r => bind r k.
#[global] Instance result_ret : MRet Result := fun _ a => Return a.

(** ** event_translator.py *)
Module EventTranslator.

(** Modelled from the spec: the name of the reserved deletion marker field
    ([datastore.shared.util.META_DELETED] is not among the sources). *)
Definition META_DELETED : string := "meta_deleted".

(** Modelled from the spec: the RequestEvent variants of
    [datastore.writer.core] (Create, Update with list-field add/remove deltas,
    Delete, Restore).  [RequestOtherEvent] stands for any other subclass of
    [BaseRequestEvent]. *)
Inductive BaseRequestEvent : Type :=
| RequestCreateEvent (fqid : Fqid) (fields : Dict JSON)
| RequestUpdateEvent (fqid : Fqid) (fields : Dict JSON)
    (list_fields : Dict (Dict JSON))
| RequestDeleteEvent (fqid : Fqid)
| RequestRestoreEvent (fqid : Fqid)
| RequestOtherEvent (fqid : Fqid).

(** Modelled from the spec: the DbEvent variants of [db_events.py]; each holds
    the arguments its constructor is called with. *)
Inductive BaseDbEvent : Type :=
| DbCreateEvent (fqid : Fqid) (field_data : Dict JSON)
| DbUpdateEvent (fqid : Fqid) (field_data : Dict JSON)
| DbDeleteFieldsEvent (fqid : Fqid) (fields : list string)
| DbListUpdateEvent (fqid : Fqid) (add remove : Dict JSON) (model : Model)
| DbDeleteEvent (fqid : Fqid) (fields : list string)
| DbRestoreEvent (fqid : Fqid) (fields : list string).

Definition event_fqid (ev : BaseRequestEvent) : Fqid :=
  match ev with
  | RequestCreateEvent fqid _ | RequestUpdateEvent fqid _ _
  | RequestDeleteEvent fqid | RequestRestoreEvent fqid
  | RequestOtherEvent fqid => fqid
  end.

(** [fqid in models] *)
Definition contains (models : gmap Fqid Model) (fqid : Fqid) : bool :=
  bool_decide (is_Some (models !! fqid)).

(** [models[fqid]] *)
Definition getitem (models : gmap Fqid Model) (fqid : Fqid) : Result Model :=
  match models !! fqid with
  | Some m => Return m
  | None => Raise (KeyError fqid)
  end.

(** [model[key]] *)
Definition dict_getitem {V} (d : Dict V) (key : string) : Result V :=
  match dict_get key d with
  | Some v => Return v
  | None => Raise (KeyError key)
  end.

Definition assert_model_does_not_exist (fqid : Fqid)
    (models : gmap Fqid Model) : Result unit :=
  if contains models fqid then Raise (ModelExists fqid) else Return tt.

Definition assert_model_exists (fqid : Fqid)
    (models : gmap Fqid Model) : Result unit :=
  if negb (contains models fqid) then Raise (ModelDoesNotExist fqid)
  else
    m ← getitem models fqid;
    marker ← dict_getitem m META_DELETED;
    if is_True marker then Raise (ModelDoesNotExist fqid) else Return tt.

Definition assert_model_is_deleted (fqid : Fqid)
    (models : gmap Fqid Model) : Result unit :=
  if negb (contains models fqid) then Raise (ModelNotDeleted fqid)
  else
    m ← getitem models fqid;
    marker ← dict_getitem m META_DELETED;
    if is_False marker then Raise (ModelNotDeleted fqid) else Return tt.

Definition not_None (item : string * JSON) : bool := negb (is_None item.2).
Definition has_None (item : string * JSON) : bool := is_None item.2.

Definition create_update_events (fqid : Fqid) (fields : Dict JSON)
    (list_fields : Dict (Dict JSON)) (models : gmap Fqid Model)
    : Result (list BaseDbEvent) :=
  let db_events := [] in
  let updated_fields := filter (fun item => not_None item = true) fields in
  let db_events :=
    if truthy updated_fields
    then db_events ++ [DbUpdateEvent fqid updated_fields]
    else db_events in
  let deleted_fields :=
    map fst (filter (fun item => has_None item = true) fields) in
  let db_events :=
    if truthy deleted_fields
    then db_events ++ [DbDeleteFieldsEvent fqid deleted_fields]
    else db_events in
  let add := default [] (dict_get "add" list_fields) in
  let remove := default [] (dict_get "remove" list_fields) in
  if truthy add || truthy remove then
    m ← getitem models fqid;
    Return (db_events ++ [DbListUpdateEvent fqid add remove m])
  else Return db_events.

Definition translate (request_event : BaseRequestEvent)
    (models : gmap Fqid Model) : Result (list BaseDbEvent) :=
  match request_event with
  | RequestCreateEvent fqid fields =>
      assert_model_does_not_exist fqid models;;
      Return [DbCreateEvent fqid fields]
  | RequestUpdateEvent fqid fields list_fields =>
      assert_model_exists fqid models;;
      create_update_events fqid fields list_fields models
  | RequestDeleteEvent fqid =>
      assert_model_exists fqid models;;
      m ← getitem models fqid;
      let model_fields := dict_keys m in
      Return [DbDeleteEvent fqid model_fields]
  | RequestRestoreEvent fqid =>
      assert_model_is_deleted fqid models;;
      m ← getitem models fqid;
      let model_fields := dict_keys m in
      Return [DbRestoreEvent fqid model_fields]
  | RequestOtherEvent _ => Raise BadCodingError
  end.

(** *** The state of an FQID and the events of a translation *)

(** The precondition of an operation is contradicted by the state of its
    FQID: Create on a present FQID; Update or Delete on an absent FQID or one
    whose deletion marker is [True]; Restore on an absent FQID or one whose
    marker is [False]. *)
Definition marker_is (models : gmap Fqid Model) (fqid : Fqid) (v : JSON) : Prop :=
  ∃ m, models !! fqid = Some m ∧ dict_get META_DELETED m = Some v.

Definition contradicts (ev : BaseRequestEvent) (models : gmap Fqid Model) : Prop :=
  match ev with
  | RequestCreateEvent fqid _ => is_Some (models !! fqid)
  | RequestUpdateEvent fqid _ _ | RequestDeleteEvent fqid =>
      models !! fqid = None ∨ marker_is models fqid (JBool true)
  | RequestRestoreEvent fqid =>
      models !! fqid = None ∨ marker_is models fqid (JBool false)
  | RequestOtherEvent _ => False
  end.

(** The domain error each kind of operation answers with. *)
Definition domain_error (ev : BaseRequestEvent) : Exception :=
  match ev with
  | RequestCreateEvent fqid _ => ModelExists fqid
  | RequestUpdateEvent fqid _ _ | RequestDeleteEvent fqid =>
      ModelDoesNotExist fqid
  | RequestRestoreEvent fqid => ModelNotDeleted fqid
  | RequestOtherEvent _ => BadCodingError
  end.

Definition is_domain_error (e : Exception) : Prop :=
  match e with
  | ModelExists _ | ModelDoesNotExist _ | ModelNotDeleted _ => True
  | _ => False
  end.

Definition known_kind (ev : BaseRequestEvent) : Prop :=
  match ev with RequestOtherEvent _ => False | _ => True end.

(** Operations that read the deletion marker. *)
Definition reads_marker (ev : BaseRequestEvent) : Prop :=
  match ev with
  | RequestUpdateEvent _ _ _ | RequestDeleteEvent _ | RequestRestoreEvent _ =>
      True
  | _ => False
  end.

Definition carries_marker (m : Model) : Prop :=
  is_Some (dict_get META_DELETED m).

(** An event that is emitted only under a condition. *)
Definition emitted_if (cond : bool) (ev : BaseDbEvent) : list BaseDbEvent :=
  if cond then [ev] else [].

Definition is_update_event (ev : BaseDbEvent) : bool :=
  match ev with DbUpdateEvent _ _ => true | _ => false end.
Definition is_delete_fields_event (ev : BaseDbEvent) : bool :=
  match ev with DbDeleteFieldsEvent _ _ => true | _ => false end.

End EventTranslator.

(** ** pg_connection_handler.py: [retry_on_db_failure] *)
Module Retry.

(** What the wrapper does besides calling the wrapped function: each call with
    the exception it ended in (if any), the info log line, and
    [sleep(ms / 1000)]. *)
Inductive Effect : Type :=
| Attempt (failure : option Exception)
| Info
| Sleep (ms : Z).

Definition failure {A} (r : Result A) : option Exception :=
  match r with
  | Return _ => None
  | Raise e => Some e
  end.

(** [isinstance(e.base_exception, psycopg2.OperationalError)
     and e.base_exception.pgcode is None] *)
Definition is_connection_break (base : BaseException) : bool :=
  match base with
  | PgBase e =>
      match pg_class e with
      | OperationalError => bool_decide (pgcode e = None)
      | _ => false
      end
  | _ => false
  end.

(** The call ended in the [except DatabaseError] clause with the condition
    of its [if] true. *)
Definition retryable {A} (r : Result A) : bool :=
  match r with
  | Raise (DatabaseError base) => is_connection_break base
  | _ => false
  end.

Section Wrapper.
Context {World A : Type}.

(** One call of the wrapped [fn]: its outcome and what it did to the
    world it runs in. *)
Variable fn : World → Result A * World.
Variables RETRY_TIMEOUT MAX_RETRIES : Z.

(** [if RETRY_TIMEOUT: sleep(RETRY_TIMEOUT / 1000)]; [sleep] refuses a
    negative length with a [ValueError]. *)
Definition pause : Result (list Effect) :=
  if decide (RETRY_TIMEOUT = 0)%Z then Return []
  else if decide (RETRY_TIMEOUT < 0)%Z then Raise ValueError
  else Return [Sleep RETRY_TIMEOUT].

(** The [while True] loop, entered with [tries] failures counted so far. *)
Equations? loop (tries : Z) (w : World) : Result A * World * list Effect
  by wf (Z.to_nat (MAX_RETRIES - tries)) lt :=
  loop tries w with fn w := {
    | (r, w') with retryable r := {
        | false => (r, w', [Attempt (failure r)])
        | true with Z_lt_dec (tries + 1) MAX_RETRIES := {
            | right _ => (r, w', [Attempt (failure r)])
            | left _ with pause := {
                | Raise e => (Raise e, w', [Attempt (failure r); Info])
                | Return slept =>
                    let '(r', w'', effects) := loop (tries + 1) w' in
                    (r', w'', Attempt (failure r) :: Info :: slept ++ effects)
              } } } }.
Proof. lia. Qed.

End Wrapper.

(** The decorated function.  [env name] is the integer value of the
    environment variable [name] when it is set and not empty. *)
Definition retry_on_db_failure {World A} (fn : World → Result A * World)
    (env : string → option Z) (w : World) : Result A * World * list Effect :=
  let RETRY_TIMEOUT := default 10%Z (env "DATASTORE_RETRY_TIMEOUT") in
  let MAX_RETRIES := default 3%Z (env "DATASTORE_MAX_RETRIES") in
  let tries := 0%Z in
  loop fn RETRY_TIMEOUT MAX_RETRIES tries w.

(** *** Runs of the wrapper *)

Definition is_attempt (e : Effect) : bool :=
  match e with Attempt _ => true | _ => false end.

(** Number of calls of the wrapped function. *)
Definition attempts (effects : list Effect) : Z :=
  Z.of_nat (List.length (filter (fun e => is_attempt e = true) effects)).

(** The delay between two consecutive attempts. *)
Definition delay (timeout : Z) : list Effect :=
  if decide (timeout = 0)%Z then [] else [Sleep timeout].

(** The shape of a run and its outcome.  Every attempt that is followed by
    another one ended in a [DatabaseError] that wraps a code-less
    [OperationalError], and the log line and the delay lie between the two.
    The run ends with the last attempt, whose outcome is the outcome of the
    wrapper, unless [sleep] refuses a negative delay. *)
Inductive retry_run (timeout : Z) : option Exception → list Effect → Prop :=
| run_last outcome : retry_run timeout outcome [Attempt outcome]
| run_sleep_refused base :
    is_connection_break base = true →
    (timeout < 0)%Z →
    retry_run timeout (Some ValueError)
      [Attempt (Some (DatabaseError base)); Info]
| run_retry base outcome rest :
    is_connection_break base = true →
    (0 ≤ timeout)%Z →
    retry_run timeout outcome rest →
    retry_run timeout outcome
      (Attempt (Some (DatabaseError base)) :: Info :: delay timeout ++ rest).

End Retry.

(** ** pg_connection_handler.py: the connection handler *)
Module ConnectionHandler.
Local Open Scope nat_scope.

(** The handler between [__init__] and [shutdown]: closing the whole pool is
    outside the model.  Connection objects and threads are told apart by
    identity. *)
Abbreviation Conn := nat (only parsing).
Abbreviation Thread := nat (only parsing).

(** Modelled from the spec: the bounded connection pool
    ([psycopg2.pool.ThreadedConnectionPool], a library outside the sources),
    sized [minconn, maxconn].  [idle] are the connections ready to be handed
    out, [used] those handed out, [next_conn] the identity of the next
    connection the pool opens. *)
Record Pool : Type := mkPool {
  minconn : nat;
  maxconn : nat;
  idle : list Conn;
  used : gset Conn;
  next_conn : Conn
}.

(** The outcome of a call to the database on a connection (commit,
    rollback): it completes, or it raises [e]; [closes] tells whether psycopg2
    marks the connection closed on that failure, as it does when the link to
    the server is lost. *)
Inductive DbCall : Type :=
| CallOk
| CallFails (e : Exception) (closes : bool).

(** [conn.info.transaction_status] of a connection that is not idle: unknown
    (the link is bad), or a transaction is open or in error, with the outcome
    a rollback of it would have. *)
Inductive TxStatus : Type :=
| TxUnknown
| TxOpen (rollback : DbCall).

(** The handler with what it reaches: the per-thread storage
    ([_storage.connection], absent until first set), the wake gate
    [sync_event], the pool, the connections whose [closed] attribute is set,
    those with [autocommit] switched off by the handler, the calls of
    [putconn] made so far, and the transaction status of the connections
    that are not idle. *)
Record State : Type := mkState {
  storage : gmap Thread (option Conn);
  sync_event : bool;
  connection_pool : Pool;
  closed : gset Conn;
  autocommit_off : gset Conn;
  putconn_calls : list (Conn * bool);
  tx_status : gmap Conn TxStatus
}.

(** A call either completes, with a result or an exception, or waits at
    [sync_event.wait()] until another thread sets the gate; it then goes on as
    a call in the state it wakes up in. *)
Inductive Outcome (A : Type) : Type :=
| Done (r : Result A) (s : State)
| Blocked (s : State).
Arguments Done {A} r s.
Arguments Blocked {A} s.

(** The state a call leaves the handler in. *)
Definition outcome_state {A} (o : Outcome A) : State :=
  match o with
  | Done _ s => s
  | Blocked s => s
  end.

(** [list.pop()]: the last element and the rest. *)
Fixpoint pop {A} (l : list A) : option (A * list A) :=
  match l with
  | [] => None
  | x :: rest =>
      match pop rest with
      | None => Some (x, [])
      | Some (y, rest') => Some (y, x :: rest')
      end
  end.

(** Modelled from the spec: [pool.getconn()] hands out an idle connection, or
    opens a new one unless [maxconn] connections are handed out already. *)
Definition getconn (p : Pool) : Result (Conn * Pool) :=
  match pop (idle p) with
  | Some (conn, rest) =>
      Return (conn, mkPool (minconn p) (maxconn p) rest ({[conn]} ∪ used p)
                      (next_conn p))
  | None =>
      if decide (size (used p) = maxconn p) then Raise PoolError
      else
        let conn := next_conn p in
        Return (conn, mkPool (minconn p) (maxconn p) (idle p)
                        ({[conn]} ∪ used p) (S conn))
  end.

(** Modelled from the spec: [pool.putconn(conn, close)] takes back a
    connection it handed out; a connection it did not hand out is refused.
    When [close] is not asked for and fewer than [minconn] connections are
    idle, the connection is kept: a closed one is dropped, one of unknown
    status is closed, one with an open transaction is rolled back and then
    recycled, an idle one is recycled; a failing rollback leaves the pool as
    it is.  In every other case the connection is closed.  [status] is the
    transaction status, [None] for idle.  The result comes with the [closed]
    attribute of the connection afterwards. *)
Definition putconn (p : Pool) (conn : Conn) (close : bool)
    (conn_closed : bool) (status : option TxStatus) : Result Pool * bool :=
  if decide (conn ∈ used p) then
    let released := used p ∖ {[conn]} in
    let dropped :=
      mkPool (minconn p) (maxconn p) (idle p) released (next_conn p) in
    let recycled :=
      mkPool (minconn p) (maxconn p) (idle p ++ [conn]) released
        (next_conn p) in
    if bool_decide (List.length (idle p) < minconn p) && negb close then
      if conn_closed then (Return dropped, true)
      else
        match status with
        | Some TxUnknown => (Return dropped, true)
        | Some (TxOpen (CallFails e closes)) => (Raise e, closes)
        | Some (TxOpen CallOk) => (Return recycled, false)
        | None => (Return recycled, false)
        end
    else (Return dropped, true)
  else (Raise PoolError, conn_closed).

Definition get_current_connection (t : Thread) (s : State) : option Conn :=
  match storage s !! t with
  | Some connection => connection
  | None => None
  end.

Definition set_current_connection (t : Thread) (connection : option Conn)
    (s : State) : State :=
  mkState (<[t := connection]> (storage s)) (sync_event s)
    (connection_pool s) (closed s) (autocommit_off s) (putconn_calls s)
    (tx_status s).

Definition is_closed (connection : Conn) (s : State) : bool :=
  bool_decide (connection ∈ closed s).

(** The [closed] attribute of [connection] becomes [now_closed] if that is
    set. *)
Definition mark_closed (connection : Conn) (now_closed : bool) (s : State)
    : State :=
  mkState (storage s) (sync_event s) (connection_pool s)
    (if now_closed then {[connection]} ∪ closed s else closed s)
    (autocommit_off s) (putconn_calls s) (tx_status s).

Definition _put_connection (t : Thread) (connection : Conn) (has_error : bool)
    (s : State) : Result unit * State :=
  if decide (Some connection ≠ get_current_connection t s)
  then (Raise BadCodingError, s)
  else
    let s := mkState (storage s) (sync_event s) (connection_pool s) (closed s)
               (autocommit_off s)
               (putconn_calls s ++ [(connection, has_error)]) (tx_status s) in
    match putconn (connection_pool s) connection has_error
            (is_closed connection s) (tx_status s !! connection) with
    | (Raise e, now_closed) => (Raise e, mark_closed connection now_closed s)
    | (Return pool, now_closed) =>
        let s := mark_closed connection now_closed s in
        let s := mkState (storage s) (sync_event s) pool (closed s)
                   (autocommit_off s) (putconn_calls s)
                   (delete connection (tx_status s)) in
        let s := set_current_connection t None s in
        (Return tt,
         mkState (storage s) true (connection_pool s) (closed s)
           (autocommit_off s) (putconn_calls s) (tx_status s))
    end.

(** [with self.sync_lock: self._put_connection(connection, has_error)] *)
Definition put_connection (t : Thread) (connection : Conn) (has_error : bool)
    (s : State) : Result unit * State :=
  _put_connection t connection has_error s.

(** The part of [get_connection] from [self.connection_pool.getconn()] on. *)
Definition acquire (t : Thread) (s : State) : Outcome Conn :=
  match getconn (connection_pool s) with
  | Raise _ =>
      Blocked (mkState (storage s) false (connection_pool s) (closed s)
                 (autocommit_off s) (putconn_calls s) (tx_status s))
  | Return (connection, pool) =>
      let s := mkState (storage s) (sync_event s) pool (closed s)
                 ({[connection]} ∪ autocommit_off s) (putconn_calls s)
                 (tx_status s) in
      Done (Return connection) (set_current_connection t (Some connection) s)
  end.

(** One round of the loop of [get_connection], run by thread [t]. *)
Definition get_connection (t : Thread) (s : State) : Outcome Conn :=
  if negb (sync_event s) then Blocked s
  else
    match get_current_connection t s with
    | Some old_conn =>
        if is_closed old_conn s then
          match _put_connection t old_conn true s with
          | (Raise e, s) => Done (Raise e) s
          | (Return _, s) => acquire t s
          end
        else Done (Raise BadCodingError) s
    | None => acquire t s
    end.

(** [raise_error]: the psycopg2 error becomes the base exception of a
    [DatabaseError]. *)
Definition raise_error {A} (base : BaseException) : Result A :=
  Raise (DatabaseError base).

(** [issubclass(type(e), psycopg2.Error)], with what a [DatabaseError] made
    from [e] carries as its base exception. *)
Definition pg_base (e : Exception) : option BaseException :=
  match e with
  | Psycopg2Error e => Some (PgBase e)
  | PoolError => Some PoolBase
  | _ => None
  end.

(** [exception is not None and issubclass(exception, psycopg2.Error)] for the
    exception (if any) the body of the [with] statement ended in. *)
Definition has_pg_error (exception : option Exception)
    : option BaseException :=
  match exception with
  | Some e => pg_base e
  | None => None
  end.

(** [ConnectionContext.__enter__] *)
Definition enter (t : Thread) (s : State) : Outcome Conn :=
  get_connection t s.

(** [ConnectionContext.__exit__] from [put_connection] on. *)
Definition exit_release (t : Thread) (connection : Conn)
    (exception : option Exception) (s : State) : Result unit * State :=
  match put_connection t connection
          (bool_decide (is_Some (has_pg_error exception))) s with
  | (Raise e, s) => (Raise e, s)
  | (Return _, s) =>
      match has_pg_error exception with
      | Some base => (raise_error base, s)
      | None => (Return tt, s)
      end
  end.

(** [ConnectionContext.__exit__], run by thread [t] for the context holding
    [connection].  [conn_exit] is the outcome of the connection's own
    [__exit__] (commit, or rollback after an exception), should it be called:
    when it completes the connection is idle; when it raises, the rest of
    [__exit__] is not run. *)
Definition exit (t : Thread) (connection : Conn)
    (exception : option Exception) (conn_exit : DbCall) (s : State)
    : Result unit * State :=
  if is_closed connection s then exit_release t connection exception s
  else
    match conn_exit with
    | CallFails e closes => (Raise e, mark_closed connection closes s)
    | CallOk =>
        exit_release t connection exception
          (mkState (storage s) (sync_event s) (connection_pool s) (closed s)
             (autocommit_off s) (putconn_calls s)
             (delete connection (tx_status s)))
    end.

(** The state after [__init__]: the pool opens [min_conn] connections. *)
Definition init (min_conn max_conn : nat) : State :=
  mkState ∅ true (mkPool min_conn max_conn (seq 0 min_conn) ∅ min_conn) ∅ ∅ []
    ∅.

(** What threads and the database can do to the handler, one step at a time:
    get and put a connection, close a connection, and change the transaction
    status of a connection ([None] for idle). *)
Inductive Op : Type :=
| OpGet (t : Thread)
| OpPut (t : Thread) (connection : Conn) (has_error : bool)
| OpBreak (connection : Conn)
| OpStatus (connection : Conn) (status : option TxStatus).

(** A step with the connection it hands out, if any. *)
Definition step (op : Op) (s : State) : State * option Conn :=
  match op with
  | OpGet t =>
      match get_connection t s with
      | Done (Return connection) s' => (s', Some connection)
      | Done (Raise _) s' => (s', None)
      | Blocked s' => (s', None)
      end
  | OpPut t connection has_error =>
      ((put_connection t connection has_error s).2, None)
  | OpBreak connection =>
      (mkState (storage s) (sync_event s) (connection_pool s)
         ({[connection]} ∪ closed s) (autocommit_off s) (putconn_calls s)
         (tx_status s),
       None)
  | OpStatus connection status =>
      (mkState (storage s) (sync_event s) (connection_pool s) (closed s)
         (autocommit_off s) (putconn_calls s)
         (match status with
          | Some st => <[connection := st]> (tx_status s)
          | None => delete connection (tx_status s)
          end),
       None)
  end.

(** The connections handed out along a run. *)
Fixpoint handed_out (ops : list Op) (s : State) : list Conn :=
  match ops with
  | [] => []
  | op :: rest =>
      let '(s', given) := step op s in
      match given with
      | Some connection => connection :: handed_out rest s'
      | None => handed_out rest s'
      end
  end.

(** *** Invariant and runs *)

(** The state after a run of steps. *)
Definition run (ops : list Op) (s : State) : State :=
  foldl (fun s op => (step op s).1) s ops.

(** The bookkeeping invariant of the handler and its pool: no connection is
    idle twice or idle and handed out at once, every connection known to the
    pool was opened by it, at most [maxconn] connections exist, and the current
    connection of a thread is handed out, to that thread only. *)
Record wf (s : State) : Prop := mkWf {
  wf_idle_nodup : NoDup (idle (connection_pool s));
  wf_disjoint :
    ∀ c, c ∈ idle (connection_pool s) → c ∉ used (connection_pool s);
  wf_idle_known :
    ∀ c, c ∈ idle (connection_pool s) → c < next_conn (connection_pool s);
  wf_used_known :
    ∀ c, c ∈ used (connection_pool s) → c < next_conn (connection_pool s);
  wf_bound :
    List.length (idle (connection_pool s)) + size (used (connection_pool s))
    ≤ maxconn (connection_pool s);
  wf_current_used :
    ∀ t c, get_current_connection t s = Some c →
           c ∈ used (connection_pool s);
  wf_current_inj :
    ∀ t u c, get_current_connection t s = Some c →
             get_current_connection u s = Some c → t = u
}.

(** A connection the pool has given up for good: it is neither idle nor
    handed out, and its identity is not that of a connection yet to be
    opened. *)
Definition discarded (c : Conn) (s : State) : Prop :=
  (c ∉ idle (connection_pool s))
  ∧ (c ∉ used (connection_pool s))
  ∧ c < next_conn (connection_pool s).

End ConnectionHandler.

(** ** Views on the results, used to state further properties *)
Module Views.
Import EventTranslator Retry ConnectionHandler.

(** The FQID a DbEvent is about. *)
Definition db_event_fqid (ev : BaseDbEvent) : Fqid :=
  match ev with
  | DbCreateEvent fqid _ | DbUpdateEvent fqid _ | DbDeleteFieldsEvent fqid _
  | DbListUpdateEvent fqid _ _ _ | DbDeleteEvent fqid _
  | DbRestoreEvent fqid _ => fqid
  end.

(** The field names the Update events of a translation set, and those its
    DeleteFields events remove, in order. *)
Definition written_fields (db_events : list BaseDbEvent) : list string :=
  flat_map (fun ev => match ev with
                      | DbUpdateEvent _ field_data => dict_keys field_data
                      | _ => []
                      end) db_events.

Definition removed_fields (db_events : list BaseDbEvent) : list string :=
  flat_map (fun ev => match ev with
                      | DbDeleteFieldsEvent _ fields => fields
                      | _ => []
                      end) db_events.

Definition succeeds {A} (r : Result A) : Prop := ∃ a, r = Return a.

(** The world after [n] calls of [fn], and the outcome of the next call. *)
Fixpoint after_calls {World A} (fn : World → Result A * World) (n : nat)
    (w : World) : World :=
  match n with
  | O => w
  | S n => after_calls fn n (fn w).2
  end.

Definition outcome_of_call {World A} (fn : World → Result A * World)
    (n : nat) (w : World) : Result A :=
  (fn (after_calls fn n w)).1.

(** Milliseconds handed to [sleep] along a run. *)
Definition slept_ms (effects : list Effect) : Z :=
  foldr (fun e total => match e with
                        | Sleep ms => (ms + total)%Z
                        | _ => total
                        end) 0%Z effects.

(** Number of log lines written along a run. *)
Definition infos (effects : list Effect) : Z :=
  foldr (fun e total => match e with
                        | Info => (1 + total)%Z
                        | _ => total
                        end) 0%Z effects.

(** [with connection_handler.get_connection_context(): body], run by thread
    [t].  The body ends normally or in an exception and leaves a state behind;
    an exception propagates after [__exit__] unless [__exit__] itself raises. *)
Definition with_context (t : Thread)
    (body : Conn → State → option Exception * State)
    (conn_exit : DbCall) (s : State) : Outcome unit :=
  match enter t s with
  | Blocked s => Blocked s
  | Done (Raise e) s => Done (Raise e) s
  | Done (Return connection) s =>
      let '(exception, s) := body connection s in
      match exit t connection exception conn_exit s with
      | (Raise e, s) => Done (Raise e) s
      | (Return _, s) =>
          match exception with
          | Some e => Done (Raise e) s
          | None => Done (Return tt) s
          end
      end
  end.

(** What the with statement is expected to answer with, given how the body
    ended: an exception of a class of [psycopg2.Error], pool errors included,
    comes back as a [DatabaseError]; any other exception as it is. *)
Definition context_result (exception : option Exception) : Result unit :=
  match exception with
  | None => Return tt
  | Some PoolError => Raise (DatabaseError PoolBase)
  | Some (Psycopg2Error e) => Raise (DatabaseError (PgBase e))
  | Some e => Raise e
  end.

End Views.

(** * Properties *)

(** ** Translation of request events *)
Module TranslatorFacts.
Import EventTranslator.

Example translate_create_ex :
  translate (RequestCreateEvent "a/1" [("x", JNum 1)]) ∅
  = Return [DbCreateEvent "a/1" [("x", JNum 1)]].
Proof. reflexivity. Qed.

Example translate_update_ex :
  translate
    (RequestUpdateEvent "a/1" [("x", JNum 1); ("y", JNull)]
       [("add", [("l", JList [JNum 2])])])
    {[ "a/1" := [("y", JNum 0); (META_DELETED, JBool false)] ]}
  = Return [DbUpdateEvent "a/1" [("x", JNum 1)];
            DbDeleteFieldsEvent "a/1" ["y"];
            DbListUpdateEvent "a/1" [("l", JList [JNum 2])] []
              [("y", JNum 0); (META_DELETED, JBool false)]].
Proof. vm_compute. reflexivity. Qed.

Lemma contains_true models fqid :
  contains models fqid = true ↔ is_Some (models !! fqid).
Proof. unfold contains. apply bool_decide_eq_true. Qed.

Lemma contains_Some models fqid m :
  models !! fqid = Some m → contains models fqid = true.
Proof. intros H. apply contains_true. eauto. Qed.

Lemma contains_None models fqid :
  models !! fqid = None → contains models fqid = false.
Proof.
  intros H. unfold contains. apply bool_decide_eq_false.
  rewrite H. intros [? ?]. discriminate.
Qed.

Lemma is_True_spec v : is_True v = true ↔ v = JBool true.
Proof. destruct v as [|[]| | | |]; simpl; split; congruence. Qed.

Lemma is_False_spec v : is_False v = true ↔ v = JBool false.
Proof. destruct v as [|[]| | | |]; simpl; split; congruence. Qed.

Lemma is_None_spec v : is_None v = true ↔ v = JNull.
Proof. destruct v; simpl; split; congruence. Qed.

(** What the two marker-reading assertions answer, case by case. *)
Lemma assert_model_exists_cases fqid models :
  assert_model_exists fqid models =
  match models !! fqid with
  | None => Raise (ModelDoesNotExist fqid)
  | Some m =>
      match dict_get META_DELETED m with
      | None => Raise (KeyError META_DELETED)
      | Some v =>
          if is_True v then Raise (ModelDoesNotExist fqid) else Return tt
      end
  end.
Proof.
  unfold assert_model_exists, getitem, dict_getitem.
  destruct (models !! fqid) as [m|] eqn:Hm.
  - rewrite (contains_Some _ _ _ Hm). simpl.
    destruct (dict_get META_DELETED m); reflexivity.
  - rewrite (contains_None _ _ Hm). reflexivity.
Qed.

Lemma assert_model_is_deleted_cases fqid models :
  assert_model_is_deleted fqid models =
  match models !! fqid with
  | None => Raise (ModelNotDeleted fqid)
  | Some m =>
      match dict_get META_DELETED m with
      | None => Raise (KeyError META_DELETED)
      | Some v =>
          if is_False v then Raise (ModelNotDeleted fqid) else Return tt
      end
  end.
Proof.
  unfold assert_model_is_deleted, getitem, dict_getitem.
  destruct (models !! fqid) as [m|] eqn:Hm.
  - rewrite (contains_Some _ _ _ Hm). simpl.
    destruct (dict_get META_DELETED m); reflexivity.
  - rewrite (contains_None _ _ Hm). reflexivity.
Qed.

Lemma assert_model_does_not_exist_cases fqid models :
  assert_model_does_not_exist fqid models =
  match models !! fqid with
  | None => Return tt
  | Some _ => Raise (ModelExists fqid)
  end.
Proof.
  unfold assert_model_does_not_exist.
  destruct (models !! fqid) as [m|] eqn:Hm.
  - by rewrite (contains_Some _ _ _ Hm).
  - by rewrite (contains_None _ _ Hm).
Qed.

(** Once the model is there, [create_update_events] cannot fail. *)
Lemma create_update_events_present fqid fields lf models m :
  models !! fqid = Some m →
  ∃ evs, create_update_events fqid fields lf models = Return evs.
Proof.
  intros Hm. unfold create_update_events, getitem. rewrite Hm.
  destruct (truthy _ || truthy _); simpl; eauto.
Qed.

(** The two guards that read the marker, against the state of the FQID:
    each raises its domain error exactly in the states that contradict it,
    raises no other domain error, and passes otherwise if the marker can be
    read. *)
Lemma assert_model_exists_spec fqid models :
  (assert_model_exists fqid models = Raise (ModelDoesNotExist fqid)
   ↔ models !! fqid = None ∨ marker_is models fqid (JBool true))
  ∧ (∀ e, assert_model_exists fqid models = Raise e → is_domain_error e →
       e = ModelDoesNotExist fqid)
  ∧ (∀ m, models !! fqid = Some m → carries_marker m →
       ¬ marker_is models fqid (JBool true) →
       assert_model_exists fqid models = Return tt).
Proof.
  rewrite assert_model_exists_cases. unfold marker_is, carries_marker.
  destruct (models !! fqid) as [m|] eqn:Hm.
  - destruct (dict_get META_DELETED m) as [v|] eqn:Hv.
    + destruct (is_True v) eqn:Ht.
      * apply is_True_spec in Ht as ->. repeat split; eauto; try congruence.
        intros m' [= <-] _ Hn. destruct Hn. eauto.
      * repeat split; try discriminate.
        intros [?|(m' & [= <-] & Hv')]; [discriminate|].
        rewrite Hv in Hv'. injection Hv' as ->. discriminate.
    + repeat split; try discriminate.
      * intros [?|(m' & [= <-] & ?)]; congruence.
      * intros e [= <-] [].
      * intros m' [= <-] [v Hv']. congruence.
  - repeat split; eauto; congruence.
Qed.

Lemma assert_model_is_deleted_spec fqid models :
  (assert_model_is_deleted fqid models = Raise (ModelNotDeleted fqid)
   ↔ models !! fqid = None ∨ marker_is models fqid (JBool false))
  ∧ (∀ e, assert_model_is_deleted fqid models = Raise e → is_domain_error e →
       e = ModelNotDeleted fqid)
  ∧ (∀ m, models !! fqid = Some m → carries_marker m →
       ¬ marker_is models fqid (JBool false) →
       assert_model_is_deleted fqid models = Return tt).
Proof.
  rewrite assert_model_is_deleted_cases. unfold marker_is, carries_marker.
  destruct (models !! fqid) as [m|] eqn:Hm.
  - destruct (dict_get META_DELETED m) as [v|] eqn:Hv.
    + destruct (is_False v) eqn:Ht.
      * apply is_False_spec in Ht as ->. repeat split; eauto; try congruence.
        intros m' [= <-] _ Hn. destruct Hn. eauto.
      * repeat split; try discriminate.
        intros [?|(m' & [= <-] & Hv')]; [discriminate|].
        rewrite Hv in Hv'. injection Hv' as ->. discriminate.
    + repeat split; try discriminate.
      * intros [?|(m' & [= <-] & ?)]; congruence.
      * intros e [= <-] [].
      * intros m' [= <-] [v Hv']. congruence.
  - repeat split; eauto; congruence.
Qed.

(** A guard followed by a step that cannot fail: the outcome is decided by
    the guard. *)
Lemma guarded_step {A} (guard : Result unit) (rest : Result A) (err : Exception)
    (bad : Prop) :
  (guard = Raise err ↔ bad) →
  (∀ e, guard = Raise e → is_domain_error e → e = err) →
  (guard = Return tt → ∃ a, rest = Return a) →
  ((guard ;; rest) = Raise err ↔ bad)
  ∧ (∀ e, (guard ;; rest) = Raise e → is_domain_error e → e = err)
  ∧ (guard = Return tt → ∃ a, (guard ;; rest) = Return a).
Proof.
  intros Hiff Hdom Hrest. destruct guard as [[]|e']; simpl.
  - destruct (Hrest eq_refl) as [a ->]. simpl.
    rewrite <- Hiff. repeat split; try discriminate. eauto.
  - split; [|split; [|discriminate]].
    + rewrite <- Hiff. split; intros [= ->]; reflexivity.
    + intros e [= <-]. by apply Hdom.
Qed.

(** C1 (as amended): for a Create, Update, Delete or Restore event and any
    models mapping, [translate] raises the operation's domain error exactly
    when the state of the FQID contradicts the operation's precondition, it
    raises no other domain error, and in every other case it succeeds provided
    the model stored under the FQID carries the deletion marker (a Create
    needs no such proviso). *)
Theorem translate_raises_iff_contradicts ev models :
  known_kind ev →
  (translate ev models = Raise (domain_error ev) ↔ contradicts ev models)
  ∧ (∀ e, translate ev models = Raise e → is_domain_error e →
       e = domain_error ev)
  ∧ (¬ contradicts ev models →
     (∀ m, reads_marker ev → models !! event_fqid ev = Some m →
        carries_marker m) →
     ∃ db_events, translate ev models = Return db_events).
Proof.
  intros Hkind.
  destruct ev as [fqid fields|fqid fields lf|fqid|fqid|fqid];
    [| | | |destruct Hkind];
    unfold translate, contradicts, domain_error, reads_marker, event_fqid.
  - (* Create *)
    rewrite assert_model_does_not_exist_cases.
    destruct (models !! fqid) as [m|] eqn:Hm; simpl.
    + repeat split; eauto; try congruence. intros Hn. destruct Hn. eauto.
    + repeat split; try discriminate; eauto. intros [? ?]. discriminate.
  - (* Update *)
    destruct (assert_model_exists_spec fqid models) as (Hiff & Hdom & Hok).
    edestruct (guarded_step (assert_model_exists fqid models)
                 (create_update_events fqid fields lf models))
      as (Hiff' & Hdom' & Hok'); [exact Hiff|exact Hdom| |].
    { rewrite assert_model_exists_cases.
      destruct (models !! fqid) as [m|] eqn:Hm; [|discriminate].
      intros _. by eapply create_update_events_present. }
    split; [exact Hiff'|]. split; [exact Hdom'|]. intros Hn Hc. apply Hok'.
    destruct (models !! fqid) as [m|] eqn:Hm; [|tauto].
    apply (Hok m); [done|by apply Hc|tauto].
  - (* Delete *)
    destruct (assert_model_exists_spec fqid models) as (Hiff & Hdom & Hok).
    edestruct (guarded_step (assert_model_exists fqid models)
                 (m ← getitem models fqid;
                  Return [DbDeleteEvent fqid (dict_keys m)]))
      as (Hiff' & Hdom' & Hok'); [exact Hiff|exact Hdom| |].
    { rewrite assert_model_exists_cases. unfold getitem.
      destruct (models !! fqid) as [m|] eqn:Hm; [|discriminate].
      intros _. simpl. eauto. }
    split; [exact Hiff'|]. split; [exact Hdom'|]. intros Hn Hc. apply Hok'.
    destruct (models !! fqid) as [m|] eqn:Hm; [|tauto].
    apply (Hok m); [done|by apply Hc|tauto].
  - (* Restore *)
    destruct (assert_model_is_deleted_spec fqid models) as (Hiff & Hdom & Hok).
    edestruct (guarded_step (assert_model_is_deleted fqid models)
                 (m ← getitem models fqid;
                  Return [DbRestoreEvent fqid (dict_keys m)]))
      as (Hiff' & Hdom' & Hok'); [exact Hiff|exact Hdom| |].
    { rewrite assert_model_is_deleted_cases. unfold getitem.
      destruct (models !! fqid) as [m|] eqn:Hm; [|discriminate].
      intros _. simpl. eauto. }
    split; [exact Hiff'|]. split; [exact Hdom'|]. intros Hn Hc. apply Hok'.
    destruct (models !! fqid) as [m|] eqn:Hm; [|tauto].
    apply (Hok m); [done|by apply Hc|tauto].
Qed.

Lemma translate_raises_iff_contradicts_witness :
  (translate (RequestRestoreEvent "a/1")
     {[ "a/1" := [("x", JNum 1); (META_DELETED, JBool false)] ]}
   = Raise (ModelNotDeleted "a/1")
   ↔ contradicts (RequestRestoreEvent "a/1")
       {[ "a/1" := [("x", JNum 1); (META_DELETED, JBool false)] ]})
  ∧ translate (RequestRestoreEvent "a/1")
      {[ "a/1" := [("x", JNum 1); (META_DELETED, JBool false)] ]}
    = Raise (ModelNotDeleted "a/1").
Proof.
  split.
  - exact (proj1 (translate_raises_iff_contradicts
                    (RequestRestoreEvent "a/1")
                    {[ "a/1" := [("x", JNum 1); (META_DELETED, JBool false)] ]}
                    I)).
  - vm_compute. reflexivity.
Defined.

(** C1 (as stated) fails on a model without the deletion marker: the state of
    the FQID contradicts nothing (it is present, its marker is not [True]),
    yet the Update does not succeed; it ends in a key-lookup error. *)
Lemma translate_markerless_update_not_total :
  ¬ contradicts (RequestUpdateEvent "a/1" [("x", JNum 1)] [])
      {[ "a/1" := [("x", JNum 0)] ]}
  ∧ translate (RequestUpdateEvent "a/1" [("x", JNum 1)] [])
      {[ "a/1" := [("x", JNum 0)] ]}
    = Raise (KeyError META_DELETED)
  ∧ ¬ is_domain_error (KeyError META_DELETED)
  ∧ ¬ ∃ db_events,
      translate (RequestUpdateEvent "a/1" [("x", JNum 1)] [])
        {[ "a/1" := [("x", JNum 0)] ]}
      = Return db_events.
Proof.
  assert (Ht : translate (RequestUpdateEvent "a/1" [("x", JNum 1)] [])
                 {[ "a/1" := [("x", JNum 0)] ]}
               = Raise (KeyError META_DELETED)) by (vm_compute; reflexivity).
  split; [|split; [exact Ht|split; [intros []|]]].
  - intros [Hn|(m & Hm & Hv)].
    + rewrite lookup_singleton_eq in Hn. discriminate.
    + rewrite lookup_singleton_eq in Hm. injection Hm as <-.
      vm_compute in Hv. discriminate.
  - intros [evs Hevs]. rewrite Ht in Hevs. discriminate.
Qed.

(** C10: an Update, Delete or Restore whose FQID is present but whose model
    lacks the deletion marker ends in a key-lookup error, not in a domain
    error; and [translate] is free of key-lookup errors on every event exactly
    when every model of the mapping carries the marker. *)
Theorem translate_markerless_key_error models :
  (∀ ev m, reads_marker ev → models !! event_fqid ev = Some m →
     dict_get META_DELETED m = None →
     translate ev models = Raise (KeyError META_DELETED)
     ∧ ¬ is_domain_error (KeyError META_DELETED))
  ∧ ((∀ ev key, translate ev models ≠ Raise (KeyError key))
     ↔ (∀ fqid m, models !! fqid = Some m → carries_marker m)).
Proof.
  split.
  - intros ev m Hk Hm Hv. split; [|intros []].
    destruct ev as [fqid fields|fqid fields lf|fqid|fqid|fqid];
      try destruct Hk; simpl in Hm; unfold translate;
      rewrite ?assert_model_exists_cases, ?assert_model_is_deleted_cases,
        Hm, Hv; reflexivity.
  - split.
    + intros Hno fqid m Hm. unfold carries_marker.
      destruct (dict_get META_DELETED m) as [v|] eqn:Hv; [eauto|].
      exfalso. apply (Hno (RequestDeleteEvent fqid) META_DELETED).
      unfold translate. by rewrite assert_model_exists_cases, Hm, Hv.
    + intros Hall ev key.
      destruct ev as [fqid fields|fqid fields lf|fqid|fqid|fqid];
        unfold translate;
        rewrite ?assert_model_does_not_exist_cases,
          ?assert_model_exists_cases, ?assert_model_is_deleted_cases;
        unfold getitem;
        try (destruct (models !! fqid) as [m|] eqn:Hm; simpl;
             [|discriminate]);
        try discriminate.
      * destruct (Hall _ _ Hm) as [v ->]. simpl.
        destruct (is_True v); simpl; [discriminate|].
        destruct (create_update_events_present fqid fields lf models m Hm)
          as [evs ->]. discriminate.
      * destruct (Hall _ _ Hm) as [v ->]. simpl.
        destruct (is_True v); simpl; discriminate.
      * destruct (Hall _ _ Hm) as [v ->]. simpl.
        destruct (is_False v); simpl; discriminate.
Qed.

Lemma translate_markerless_key_error_witness :
  translate (RequestDeleteEvent "b/2") {[ "b/2" := [("title", JStr "t")] ]}
  = Raise (KeyError META_DELETED)
  ∧ ¬ is_domain_error (KeyError META_DELETED).
Proof.
  apply (proj1 (translate_markerless_key_error
                  {[ "b/2" := [("title", JStr "t")] ]})
           (RequestDeleteEvent "b/2") [("title", JStr "t")]).
  - exact I.
  - apply lookup_singleton_eq.
  - reflexivity.
Defined.

Lemma updated_fields_spec (fields : Dict JSON) f x :
  (f, x) ∈ filter (fun item => not_None item = true) fields
  ↔ (f, x) ∈ fields ∧ x ≠ JNull.
Proof.
  rewrite list_elem_of_filter. unfold not_None. simpl.
  rewrite negb_true_iff, <- not_true_iff_false, is_None_spec. tauto.
Qed.

Lemma deleted_fields_spec (fields : Dict JSON) f :
  f ∈ map fst (filter (fun item => has_None item = true) fields)
  ↔ (f, JNull) ∈ fields.
Proof.
  change (map fst) with (fmap (M:=list) (@fst string JSON)).
  rewrite list_elem_of_fmap. split.
  - intros ([f' x] & -> & Hin). apply list_elem_of_filter in Hin as [Hx Hin].
    unfold has_None in Hx. simpl in Hx. apply is_None_spec in Hx.
    by subst x.
  - intros Hin. exists (f, JNull). split; [reflexivity|].
    apply list_elem_of_filter. by split.
Qed.

Lemma all_None_filter (fields : Dict JSON) :
  (∀ f x, (f, x) ∈ fields → x = JNull) →
  filter (fun item => not_None item = true) fields = []
  ∧ filter (fun item => has_None item = true) fields = fields.
Proof.
  induction fields as [|[f x] rest IH]; intros Hall; [by split|].
  assert (x = JNull) as -> by (apply (Hall f); left).
  destruct IH as [IH1 IH2].
  { intros f' x' Hin. apply (Hall f'). by right. }
  split.
  - rewrite filter_cons_False; [exact IH1|]. unfold not_None. simpl. congruence.
  - rewrite filter_cons_True; [by rewrite IH2|]. reflexivity.
Qed.

(** C2: an Update on an existing model that is not deleted yields an Update
    event with exactly the non-null fields, if there are any; then a
    DeleteFields event with exactly the names of the null fields, if there are
    any; then a ListUpdate event with the add deltas, the remove deltas and the
    prior model, if add or remove is non-empty.  That makes at most three
    events, and when the (non-empty) fields are all null, exactly one
    DeleteFields event and no Update event. *)
Theorem update_translation fqid fields lf models m marker :
  models !! fqid = Some m →
  dict_get META_DELETED m = Some marker →
  is_True marker = false →
  ∃ updated deleted db_events,
    translate (RequestUpdateEvent fqid fields lf) models = Return db_events
    ∧ db_events =
        emitted_if (truthy updated) (DbUpdateEvent fqid updated)
        ++ emitted_if (truthy deleted) (DbDeleteFieldsEvent fqid deleted)
        ++ emitted_if
             (truthy (default [] (dict_get "add" lf))
              || truthy (default [] (dict_get "remove" lf)))
             (DbListUpdateEvent fqid (default [] (dict_get "add" lf))
                (default [] (dict_get "remove" lf)) m)
    ∧ (∀ f x, (f, x) ∈ updated ↔ (f, x) ∈ fields ∧ x ≠ JNull)
    ∧ (∀ f, f ∈ deleted ↔ (f, JNull) ∈ fields)
    ∧ (List.length db_events ≤ 3)%nat
    ∧ (fields ≠ [] → (∀ f x, (f, x) ∈ fields → x = JNull) →
       filter (fun ev => is_delete_fields_event ev = true) db_events
         = [DbDeleteFieldsEvent fqid (dict_keys fields)]
       ∧ filter (fun ev => is_update_event ev = true) db_events = []).
Proof.
  intros Hm Hv Ht.
  exists (filter (fun item => not_None item = true) fields),
    (map fst (filter (fun item => has_None item = true) fields)).
  unfold translate. rewrite assert_model_exists_cases, Hm, Hv, Ht. simpl.
  unfold create_update_events, getitem. rewrite Hm.
  set (updated := filter (fun item => not_None item = true) fields).
  set (deleted := map fst (filter (fun item => has_None item = true) fields)).
  set (add := default [] (dict_get "add" lf)).
  set (remove := default [] (dict_get "remove" lf)).
  eexists. split; [|split; [reflexivity|]].
  { unfold emitted_if.
    destruct (truthy updated), (truthy deleted), (truthy add || truthy remove);
      reflexivity. }
  unfold emitted_if.
  split; [apply updated_fields_spec|]. split; [apply deleted_fields_spec|].
  split.
  { destruct (truthy updated), (truthy deleted), (truthy add || truthy remove);
      simpl; lia. }
  intros Hne Hall. destruct (all_None_filter fields Hall) as [Hu Hd].
  subst updated deleted. rewrite Hu, Hd.
  destruct fields as [|item rest]; [done|]. simpl.
  destruct (truthy add || truthy remove); simpl; split; reflexivity.
Qed.

Lemma update_translation_witness :
  ∃ updated deleted db_events,
    translate (RequestUpdateEvent "a/1" [("x", JNull)] [])
      {[ "a/1" := [("x", JNum 1); (META_DELETED, JBool false)] ]}
    = Return db_events
    ∧ db_events =
        emitted_if (truthy updated) (DbUpdateEvent "a/1" updated)
        ++ emitted_if (truthy deleted) (DbDeleteFieldsEvent "a/1" deleted)
        ++ emitted_if false
             (DbListUpdateEvent "a/1" [] []
                [("x", JNum 1); (META_DELETED, JBool false)])
    ∧ (∀ f x, (f, x) ∈ updated ↔ (f, x) ∈ [("x", JNull)] ∧ x ≠ JNull)
    ∧ (∀ f, f ∈ deleted ↔ (f, JNull) ∈ [("x", JNull)])
    ∧ (List.length db_events ≤ 3)%nat
    ∧ ([("x", JNull)] ≠ [] →
       (∀ f x, (f, x) ∈ [("x", JNull)] → x = JNull) →
       filter (fun ev => is_delete_fields_event ev = true) db_events
         = [DbDeleteFieldsEvent "a/1" ["x"]]
       ∧ filter (fun ev => is_update_event ev = true) db_events = []).
Proof.
  apply (update_translation "a/1" [("x", JNull)] []
           {[ "a/1" := [("x", JNum 1); (META_DELETED, JBool false)] ]}
           [("x", JNum 1); (META_DELETED, JBool false)] (JBool false)).
  - apply lookup_singleton_eq.
  - reflexivity.
  - reflexivity.
Defined.

Lemma dict_keys_spec {V} (d : Dict V) f :
  f ∈ dict_keys d ↔ is_Some (dict_get f d).
Proof.
  unfold dict_keys. induction d as [|[k v] rest IH]; simpl.
  - split; [intros H; inversion H|intros [? ?]; discriminate].
  - rewrite elem_of_cons, IH. destruct (decide (k = f)) as [->|Hne].
    + split; eauto.
    + split; [intros [?|?]; [congruence|done]|by right].
Qed.

(** C3: when its precondition holds, a Create yields one Create event with
    the supplied fields unchanged, a Delete yields one Delete event with the
    names of all fields on the model, and a Restore yields one Restore event
    with the names of all fields on the model. *)
Theorem single_event_translation models :
  (∀ fqid fields, models !! fqid = None →
     translate (RequestCreateEvent fqid fields) models
     = Return [DbCreateEvent fqid fields])
  ∧ (∀ fqid m marker, models !! fqid = Some m →
       dict_get META_DELETED m = Some marker → is_True marker = false →
       ∃ names,
         translate (RequestDeleteEvent fqid) models
         = Return [DbDeleteEvent fqid names]
         ∧ ∀ f, f ∈ names ↔ is_Some (dict_get f m))
  ∧ (∀ fqid m marker, models !! fqid = Some m →
       dict_get META_DELETED m = Some marker → is_False marker = false →
       ∃ names,
         translate (RequestRestoreEvent fqid) models
         = Return [DbRestoreEvent fqid names]
         ∧ ∀ f, f ∈ names ↔ is_Some (dict_get f m)).
Proof.
  split; [|split].
  - intros fqid fields Hm. unfold translate.
    by rewrite assert_model_does_not_exist_cases, Hm.
  - intros fqid m marker Hm Hv Ht. exists (dict_keys m).
    split; [|apply dict_keys_spec]. unfold translate, getitem.
    by rewrite assert_model_exists_cases, Hm, Hv, Ht.
  - intros fqid m marker Hm Hv Ht. exists (dict_keys m).
    split; [|apply dict_keys_spec]. unfold translate, getitem.
    by rewrite assert_model_is_deleted_cases, Hm, Hv, Ht.
Qed.

Lemma single_event_translation_witness :
  translate (RequestCreateEvent "a/1" [("x", JNum 1)])
    {[ "b/2" := [("y", JNum 2); (META_DELETED, JBool false)] ]}
  = Return [DbCreateEvent "a/1" [("x", JNum 1)]]
  ∧ (∃ names,
       translate (RequestDeleteEvent "b/2")
         {[ "b/2" := [("y", JNum 2); (META_DELETED, JBool false)] ]}
       = Return [DbDeleteEvent "b/2" names]
       ∧ ∀ f, f ∈ names
              ↔ is_Some (dict_get f [("y", JNum 2); (META_DELETED, JBool false)]))
  ∧ (∃ names,
       translate (RequestRestoreEvent "c/3")
         {[ "c/3" := [("z", JNum 3); (META_DELETED, JBool true)] ]}
       = Return [DbRestoreEvent "c/3" names]
       ∧ ∀ f, f ∈ names
              ↔ is_Some (dict_get f [("z", JNum 3); (META_DELETED, JBool true)])).
Proof.
  split; [|split].
  - apply (proj1 (single_event_translation _)). reflexivity.
  - apply (proj1 (proj2 (single_event_translation _)) "b/2" _ (JBool false));
      [apply lookup_singleton_eq|reflexivity|reflexivity].
  - apply (proj2 (proj2 (single_event_translation _)) "c/3" _ (JBool true));
      [apply lookup_singleton_eq|reflexivity|reflexivity].
Defined.

End TranslatorFacts.

(** ** The retry wrapper *)
Module RetryFacts.
Import Retry.

Lemma retryable_inv {A} (r : Result A) :
  retryable r = true →
  ∃ base, r = Raise (DatabaseError base) ∧ is_connection_break base = true.
Proof.
  destruct r as [a|e]; [discriminate|]. destruct e; try discriminate.
  simpl. eauto.
Qed.

Lemma pause_cases timeout :
  ((0 ≤ timeout)%Z ∧ pause timeout = Return (delay timeout))
  ∨ ((timeout < 0)%Z ∧ pause timeout = Raise ValueError).
Proof.
  unfold pause, delay.
  destruct (decide (timeout = 0)%Z); [left; split; [lia|reflexivity]|].
  destruct (decide (timeout < 0)%Z); [right|left]; split; (lia || reflexivity).
Qed.

Lemma attempts_cons_attempt o effects :
  attempts (Attempt o :: effects) = (1 + attempts effects)%Z.
Proof. unfold attempts. rewrite filter_cons_True by reflexivity. simpl. lia. Qed.

Lemma attempts_skip e effects :
  is_attempt e = false → attempts (e :: effects) = attempts effects.
Proof.
  intros H. unfold attempts. rewrite filter_cons_False; [reflexivity|].
  congruence.
Qed.

Lemma attempts_delay timeout effects :
  attempts (delay timeout ++ effects) = attempts effects.
Proof.
  unfold delay. destruct (decide (timeout = 0)%Z); [reflexivity|].
  simpl. by apply attempts_skip.
Qed.

Lemma last_prefix {X} (prefix l : list X) x :
  last l = Some x → last (prefix ++ l) = Some x.
Proof. intros H. by rewrite last_app, H. Qed.

Section Loop.
Context {World A : Type}.
Variable fn : World → Result A * World.
Variables timeout max_retries : Z.

Lemma loop_spec tries w :
  let res := loop fn timeout max_retries tries w in
  retry_run timeout (failure res.1.1) res.2
  ∧ (1 ≤ attempts res.2 ≤ Z.max 1 (max_retries - tries))%Z
  ∧ (retryable res.1.1 = true →
     attempts res.2 = Z.max 1 (max_retries - tries))
  ∧ (attempts res.2 = Z.max 1 (max_retries - tries) →
     last res.2 = Some (Attempt (failure res.1.1))).
Proof.
  funelim (loop fn timeout max_retries tries w); simpl; clear Heqcall.
  - (* not retryable: returned or re-raised at once *)
    rewrite attempts_cons_attempt. unfold attempts. simpl.
    repeat split; [constructor|lia|lia|congruence].
  - (* retries exhausted *)
    rewrite attempts_cons_attempt. unfold attempts. simpl.
    repeat split; [constructor|lia|lia|lia].
  - (* retry *)
    match goal with Hp : pause _ = _ |- _ =>
      destruct (pause_cases timeout) as [[Hpos Hp']|[Hneg Hp']];
      rewrite Hp' in Hp; [injection Hp as <-|discriminate] end.
    match goal with Hr : retryable r = true |- _ =>
      apply retryable_inv in Hr as (base & -> & Hbase) end.
    destruct (loop fn timeout max_retries (tries + 1) w')
      as [[r' w''] effects].
    simpl in *. destruct H as (Hrun & Hbound & Hmax & Hlast).
    rewrite attempts_cons_attempt, attempts_skip, attempts_delay
      by reflexivity.
    repeat split.
    + by constructor.
    + lia.
    + lia.
    + intros Hr. specialize (Hmax Hr). lia.
    + intros Hall. apply (last_prefix (Info :: delay timeout)), Hlast. lia.
  - (* sleep refuses the delay *)
    match goal with Hp : pause _ = _ |- _ =>
      destruct (pause_cases timeout) as [[Hpos Hp']|[Hneg Hp']];
      rewrite Hp' in Hp; [discriminate|injection Hp as <-] end.
    match goal with Hr : retryable r = true |- _ =>
      apply retryable_inv in Hr as (base & -> & Hbase) end.
    simpl. rewrite attempts_cons_attempt, attempts_skip by reflexivity.
    unfold attempts. simpl.
    repeat split; [by constructor|lia|lia|discriminate|lia].
Qed.

Lemma loop_not_retryable tries w r w' :
  fn w = (r, w') → retryable r = false →
  loop fn timeout max_retries tries w = (r, w', [Attempt (failure r)]).
Proof.
  intros Hfn Hr. funelim (loop fn timeout max_retries tries w);
    clear Heqcall;
    match goal with Hc : fn w = _ |- _ =>
      rewrite Hfn in Hc; injection Hc as <- <- end;
    [reflexivity|congruence..].
Qed.

End Loop.

Lemma is_connection_break_spec base :
  is_connection_break base = true
  ↔ ∃ e, base = PgBase e ∧ pg_class e = OperationalError ∧ pgcode e = None.
Proof.
  split.
  - destruct base as [|[cls code]| |]; try discriminate. simpl.
    destruct cls; try discriminate. intros H%bool_decide_eq_true. eauto.
  - intros ([cls code] & -> & Hcls & Hcode). simpl in *. subst. reflexivity.
Qed.

(** C5 (as amended): the wrapper calls the operation again only after a
    [DatabaseError] that wraps an [OperationalError] without SQL code; every
    other outcome of a call, any other database error included, is returned or
    re-raised at once; the log line and the configured delay lie between two
    consecutive attempts; between one and max(1, configured maximum) attempts
    are made; a disconnection error is surfaced only once that many attempts
    have been made; and once that many have been made, the outcome of the
    last attempt is the outcome of the wrapper. *)
Theorem retry_on_db_failure_spec {World A} (fn : World → Result A * World)
    (env : string → option Z) (w : World) :
  let timeout := default 10%Z (env "DATASTORE_RETRY_TIMEOUT") in
  let max_retries := default 3%Z (env "DATASTORE_MAX_RETRIES") in
  let res := retry_on_db_failure fn env w in
  retry_run timeout (failure res.1.1) res.2
  ∧ (1 ≤ attempts res.2 ≤ Z.max 1 max_retries)%Z
  ∧ (retryable res.1.1 = true → attempts res.2 = Z.max 1 max_retries)
  ∧ (attempts res.2 = Z.max 1 max_retries →
     last res.2 = Some (Attempt (failure res.1.1)))
  ∧ (∀ r w', fn w = (r, w') →
       (∀ e, r = Raise (DatabaseError (PgBase e)) →
          pg_class e = OperationalError → pgcode e ≠ None) →
       res = (r, w', [Attempt (failure r)])).
Proof.
  intros timeout max_retries res. subst res. unfold retry_on_db_failure.
  fold timeout max_retries.
  destruct (loop_spec fn timeout max_retries 0 w)
    as (Hrun & Hbound & Hmax & Hlast).
  rewrite Z.sub_0_r in Hbound, Hmax, Hlast.
  split; [exact Hrun|]. split; [exact Hbound|]. split; [exact Hmax|].
  split; [exact Hlast|].
  intros r w' Hfn Hr. apply loop_not_retryable; [exact Hfn|].
  destruct (retryable r) eqn:Hre; [|reflexivity].
  apply retryable_inv in Hre as (base & -> & Hbase).
  apply is_connection_break_spec in Hbase as (e & -> & Hcls & Hcode).
  destruct (Hr e eq_refl Hcls Hcode).
Qed.

Lemma retry_on_db_failure_spec_witness :
  attempts
    (retry_on_db_failure
       (fun n : nat =>
          (@Raise unit
             (DatabaseError (PgBase (mkPgError OperationalError None))),
           S n))
       (fun _ => None) 0%nat).2
  = 3%Z.
Proof.
  apply (proj1 (proj2 (proj2
           (retry_on_db_failure_spec
              (fun n : nat =>
                 (@Raise unit
                    (DatabaseError (PgBase (mkPgError OperationalError None))),
                  S n))
              (fun _ => None) 0%nat)))).
  vm_compute. reflexivity.
Defined.

(** C5 (as stated) fails for a configured maximum below one: with
    DATASTORE_MAX_RETRIES set to 0 the operation is still attempted once. *)
Lemma retry_attempts_exceed_zero_maximum :
  default 3%Z
    ((fun name => if decide (name = "DATASTORE_MAX_RETRIES") then Some 0%Z
                  else None) "DATASTORE_MAX_RETRIES") = 0%Z
  ∧ attempts
      (retry_on_db_failure
         (fun n : nat =>
            (@Raise unit
               (DatabaseError (PgBase (mkPgError OperationalError None))),
             S n))
         (fun name => if decide (name = "DATASTORE_MAX_RETRIES") then Some 0%Z
                      else None)
         0%nat).2
    = 1%Z
  ∧ ¬ (1 ≤ 0)%Z.
Proof. split; [|split]; [vm_compute; reflexivity..|lia]. Qed.

End RetryFacts.

(** ** The connection handler *)
Module HandlerFacts.
Import ConnectionHandler.
Local Open Scope nat_scope.
#[local] Set Warnings "-clear-no-such-hyp".

(** Reduce the projections of explicit states and pools, nothing else. *)
Ltac fields :=
  cbn [connection_pool idle used next_conn maxconn minconn storage sync_event
       closed autocommit_off putconn_calls tx_status set_current_connection
       init] in *.

Lemma pop_None {A} (l : list A) : pop l = None ↔ l = [].
Proof.
  destruct l as [|x rest]; simpl; [done|].
  destruct (pop rest) as [[y rest']|]; split; discriminate.
Qed.

Lemma pop_Some {A} (l : list A) x rest :
  pop l = Some (x, rest) ↔ l = rest ++ [x].
Proof.
  revert x rest. induction l as [|a l IH]; intros x rest; simpl.
  - split; [discriminate|]. intros H. by destruct rest.
  - destruct (pop l) as [[y rest']|] eqn:Hpop.
    + specialize (IH y rest'). destruct IH as [IH _].
      specialize (IH eq_refl). subst l. split.
      * intros [= <- <-]. reflexivity.
      * intros H. destruct rest as [|b rest].
        -- destruct rest'; discriminate.
        -- injection H as <- H. apply app_inj_tail in H as [<- <-].
           reflexivity.
    + apply pop_None in Hpop. subst l. split.
      * intros [= <- <-]. reflexivity.
      * intros H. destruct rest as [|b rest]; [by injection H as <-|].
        injection H as _ H. by destruct rest.
Qed.

Lemma get_current_set_eq t connection s :
  get_current_connection t (set_current_connection t connection s)
  = connection.
Proof.
  unfold get_current_connection, set_current_connection. simpl.
  by rewrite lookup_insert_eq.
Qed.

Lemma get_current_set_ne t u connection s :
  t ≠ u →
  get_current_connection u (set_current_connection t connection s)
  = get_current_connection u s.
Proof.
  intros Hne. unfold get_current_connection, set_current_connection. simpl.
  by rewrite lookup_insert_ne.
Qed.

Lemma wf_init min_conn max_conn :
  min_conn ≤ max_conn → wf (init min_conn max_conn).
Proof.
  intros Hle. split; fields.
  - apply NoDup_seq.
  - set_solver.
  - intros c Hc. apply elem_of_seq in Hc. lia.
  - set_solver.
  - rewrite length_seq, size_empty. lia.
  - intros t c. unfold get_current_connection. fields.
    rewrite lookup_empty. discriminate.
  - intros t u c. unfold get_current_connection. fields.
    rewrite lookup_empty. discriminate.
Qed.

(** *** The pool *)

Lemma putconn_Return p c close conn_closed status p' now_closed :
  putconn p c close conn_closed status = (Return p', now_closed) →
  c ∈ used p
  ∧ used p' = used p ∖ {[c]}
  ∧ next_conn p' = next_conn p
  ∧ maxconn p' = maxconn p
  ∧ minconn p' = minconn p
  ∧ ((idle p' = idle p ∧ now_closed = true)
     ∨ (idle p' = idle p ++ [c] ∧ now_closed = false
        ∧ close = false ∧ conn_closed = false)).
Proof.
  unfold putconn. destruct (decide (c ∈ used p)) as [Hin|]; [|discriminate].
  destruct (bool_decide _ && negb close) eqn:Hrecycle.
  - apply andb_true_iff in Hrecycle as [_ Hclose%negb_true_iff].
    destruct conn_closed; [intros [= <- <-]; fields; naive_solver|].
    destruct status as [[|[|e closes]]|]; intros [= <- <-] || discriminate;
      fields; naive_solver.
  - intros [= <- <-]; fields; naive_solver.
Qed.

Lemma putconn_close p c conn_closed status p' now_closed :
  putconn p c true conn_closed status = (Return p', now_closed) →
  idle p' = idle p ∧ now_closed = true.
Proof.
  intros H. apply putconn_Return in H as (_ & _ & _ & _ & _ & [H|H]);
    [exact H|]. destruct H as (_ & _ & ? & _). discriminate.
Qed.

Lemma putconn_Raise p c close conn_closed status e now_closed :
  putconn p c close conn_closed status = (Raise e, now_closed) →
  ((c ∉ used p) ∧ e = PoolError ∧ now_closed = conn_closed)
  ∨ (c ∈ used p ∧ close = false ∧ conn_closed = false
     ∧ status = Some (TxOpen (CallFails e now_closed))).
Proof.
  unfold putconn. destruct (decide (c ∈ used p)) as [Hin|Hnin].
  - destruct (bool_decide _ && negb close) eqn:Hrecycle; [|discriminate].
    apply andb_true_iff in Hrecycle as [_ Hclose%negb_true_iff].
    destruct conn_closed; [discriminate|].
    destruct status as [[|[|e' closes]]|]; try discriminate.
    intros [= <- <-]. right. naive_solver.
  - intros [= <- <-]. left. naive_solver.
Qed.

(** The pool takes back a connection it handed out unless it has to roll
    back and the rollback fails. *)
Lemma putconn_used p c close conn_closed status :
  c ∈ used p →
  close = true ∨ conn_closed = true
  ∨ (∀ e closes, status ≠ Some (TxOpen (CallFails e closes))) →
  ∃ p' now_closed,
    putconn p c close conn_closed status = (Return p', now_closed).
Proof.
  intros Hin Hok. unfold putconn. rewrite decide_True by assumption.
  destruct (bool_decide _ && negb close) eqn:Hrecycle; [|eauto].
  apply andb_true_iff in Hrecycle as [_ Hclose%negb_true_iff].
  destruct conn_closed; [eauto|].
  destruct status as [[|[|e closes]]|]; eauto.
  destruct Hok as [?|[?|Hok]]; [congruence..|]. by destruct (Hok e closes).
Qed.

Lemma getconn_Return p c p' :
  getconn p = Return (c, p') →
  used p' = {[c]} ∪ used p
  ∧ maxconn p' = maxconn p
  ∧ minconn p' = minconn p
  ∧ ((idle p = idle p' ++ [c] ∧ next_conn p' = next_conn p)
     ∨ (idle p = [] ∧ idle p' = [] ∧ c = next_conn p
        ∧ next_conn p' = S c ∧ size (used p) ≠ maxconn p)).
Proof.
  unfold getconn. destruct (pop (idle p)) as [[c' rest]|] eqn:Hpop.
  - apply pop_Some in Hpop. intros [= <- <-]. fields. naive_solver.
  - apply pop_None in Hpop.
    destruct (decide (size (used p) = maxconn p)); [discriminate|].
    intros [= <- <-]. fields. naive_solver.
Qed.

Lemma getconn_Raise p e :
  getconn p = Raise e → idle p = [] ∧ size (used p) = maxconn p.
Proof.
  unfold getconn. destruct (pop (idle p)) as [[c' rest]|] eqn:Hpop;
    [discriminate|]. apply pop_None in Hpop.
  destruct (decide (size (used p) = maxconn p)); [done|discriminate].
Qed.

(** *** Returning a connection *)

(** What a completed [_put_connection] leaves behind. *)
Lemma put_connection_Return t c has_error s s' :
  _put_connection t c has_error s = (Return tt, s') →
  get_current_connection t s = Some c
  ∧ c ∈ used (connection_pool s)
  ∧ storage s' = <[t := None]> (storage s)
  ∧ sync_event s' = true
  ∧ used (connection_pool s') = used (connection_pool s) ∖ {[c]}
  ∧ next_conn (connection_pool s') = next_conn (connection_pool s)
  ∧ maxconn (connection_pool s') = maxconn (connection_pool s)
  ∧ putconn_calls s' = putconn_calls s ++ [(c, has_error)]
  ∧ ((idle (connection_pool s') = idle (connection_pool s)
      ∧ closed s' = {[c]} ∪ closed s)
     ∨ (idle (connection_pool s') = idle (connection_pool s) ++ [c]
        ∧ closed s' = closed s ∧ has_error = false ∧ c ∉ closed s)).
Proof.
  unfold _put_connection.
  destruct (decide (Some c ≠ get_current_connection t s)) as [|Hcur];
    [discriminate|].
  apply dec_stable in Hcur. unfold mark_closed. fields.
  destruct (putconn _ _ _ _ _) as [[pool|e] now_closed] eqn:Hput;
    [|discriminate].
  apply putconn_Return in Hput as (Hin & Hused & Hnext & Hmax & _ & Hidle).
  intros [= <-]. fields.
  repeat (split; [done|]).
  destruct Hidle as [[-> ->]|(-> & -> & -> & Hopen)]; [by left|right].
  repeat (split; [done|]). unfold is_closed in Hopen.
  by apply bool_decide_eq_false in Hopen.
Qed.

(** A completed [_put_connection] leaves the connection without a recorded
    transaction status and keeps the minimum of the pool. *)
Lemma put_connection_status t c has_error s s' :
  _put_connection t c has_error s = (Return tt, s') →
  tx_status s' = delete c (tx_status s)
  ∧ minconn (connection_pool s') = minconn (connection_pool s).
Proof.
  unfold _put_connection.
  destruct (decide (Some c ≠ get_current_connection t s)); [discriminate|].
  unfold mark_closed. fields.
  destruct (putconn _ _ _ _ _) as [[pool|e] now_closed] eqn:Hput;
    [|discriminate].
  apply putconn_Return in Hput as (_ & _ & _ & _ & Hmin & _).
  intros [= <-]. fields. by split.
Qed.

Lemma put_connection_Raise t c has_error s e s' :
  _put_connection t c has_error s = (Raise e, s') →
  storage s' = storage s
  ∧ connection_pool s' = connection_pool s
  ∧ closed s ⊆ closed s'
  ∧ ((e = BadCodingError ∧ get_current_connection t s ≠ Some c ∧ s' = s)
     ∨ (e = PoolError ∧ get_current_connection t s = Some c
        ∧ c ∉ used (connection_pool s))
     ∨ (get_current_connection t s = Some c ∧ c ∈ used (connection_pool s)
        ∧ has_error = false ∧ (c ∉ closed s)
        ∧ ∃ closes, tx_status s !! c = Some (TxOpen (CallFails e closes))
                    ∧ sync_event s' = sync_event s
                    ∧ closed s'
                      = (if closes then {[c]} ∪ closed s else closed s))).
Proof.
  unfold _put_connection.
  destruct (decide (Some c ≠ get_current_connection t s)) as [Hcur|Hcur].
  - intros [= <- <-]. repeat (split; [done|]). left. naive_solver.
  - apply dec_stable in Hcur. unfold mark_closed. fields.
    destruct (putconn _ _ _ _ _) as [[pool|e'] now_closed] eqn:Hput;
      [discriminate|].
    intros [= <- <-]. fields. do 2 (split; [done|]).
    split; [destruct now_closed; set_solver|].
    apply putconn_Raise in Hput
      as [(Hnin & -> & _)|(Hin & -> & Hopen & Hstatus)]; right;
      [left; naive_solver|right].
    unfold is_closed in Hopen. apply bool_decide_eq_false in Hopen.
    repeat (split; [done|]). by exists now_closed.
Qed.

(** [_put_connection] of the thread's current connection completes unless the
    pool has to roll back and the rollback fails. *)
Lemma put_connection_total t c has_error s :
  get_current_connection t s = Some c → c ∈ used (connection_pool s) →
  has_error = true ∨ c ∈ closed s
  ∨ (∀ e closes, tx_status s !! c ≠ Some (TxOpen (CallFails e closes))) →
  ∃ s', _put_connection t c has_error s = (Return tt, s').
Proof.
  intros Hcur Hin Hok. unfold _put_connection.
  rewrite decide_False by (rewrite Hcur; auto). unfold is_closed. fields.
  destruct (putconn_used (connection_pool s) c has_error
              (bool_decide (c ∈ closed s)) (tx_status s !! c) Hin)
    as (p' & now_closed & ->); [|eauto].
  destruct Hok as [?|[?|?]]; [by left| |by right; right].
  right; left. by apply bool_decide_eq_true.
Qed.

Lemma get_current_storage t s s' :
  storage s' = storage s →
  get_current_connection t s' = get_current_connection t s.
Proof. unfold get_current_connection. by intros ->. Qed.

Lemma get_current_cleared t u s s' :
  storage s' = <[t := None]> (storage s) →
  get_current_connection u s'
  = if decide (t = u) then None else get_current_connection u s.
Proof.
  unfold get_current_connection. intros ->. rewrite lookup_insert.
  destruct (decide (t = u)); reflexivity.
Qed.

Lemma wf_put_connection t c has_error s :
  wf s → wf (_put_connection t c has_error s).2.
Proof.
  intros Hwf. destruct (_put_connection t c has_error s) as [[[]|e] s'] eqn:Hput.
  - apply put_connection_Return in Hput
      as (Hcur & Hin & Hst & _ & Hused & Hnext & Hmax & _ & Hidle).
    destruct Hwf as [Hnd Hdis Hik Huk Hb Hcu Hinj]. simpl.
    assert (Hsize : size (used (connection_pool s'))
                    = size (used (connection_pool s)) - 1).
    { rewrite Hused, size_difference by set_solver.
      by rewrite size_singleton. }
    assert (Hpos : 0 < size (used (connection_pool s))).
    { destruct (decide (size (used (connection_pool s)) = 0)) as [Hz|]; [|lia].
      apply size_empty_inv in Hz. set_solver. }
    assert (Hothers : ∀ u c', get_current_connection u s' = Some c' →
              t ≠ u ∧ get_current_connection u s = Some c' ∧ c' ≠ c).
    { intros u c' Hu. rewrite (get_current_cleared t u s s' Hst) in Hu.
      destruct (decide (t = u)) as [|Hne]; [discriminate|].
      repeat split; [done..|]. intros ->. apply Hne. by eapply Hinj. }
    split; rewrite ?Hused, ?Hnext, ?Hmax.
    + destruct Hidle as [[-> _]|(-> & _)]; [done|].
      apply NoDup_app. repeat split; [done| |apply NoDup_singleton].
      intros x Hx ->%list_elem_of_singleton. by apply (Hdis c).
    + intros x Hx. destruct Hidle as [[Hi _]|(Hi & _)]; rewrite Hi in Hx.
      * specialize (Hdis x Hx). set_solver.
      * apply elem_of_app in Hx as [Hx| ->%list_elem_of_singleton];
          [specialize (Hdis x Hx)|]; set_solver.
    + intros x Hx. destruct Hidle as [[Hi _]|(Hi & _)]; rewrite Hi in Hx.
      * by apply Hik.
      * apply elem_of_app in Hx as [Hx| ->%list_elem_of_singleton];
          [by apply Hik|by apply Huk].
    + intros x Hx. apply Huk. set_solver.
    + rewrite <- Hused, Hsize.
      destruct Hidle as [[-> _]|(-> & _)]; rewrite ?length_app; simpl; lia.
    + intros u c' Hu. destruct (Hothers u c' Hu) as (_ & Hu' & Hne).
      specialize (Hcu u c' Hu'). set_solver.
    + intros u v c' Hu Hv. destruct (Hothers u c' Hu) as (_ & Hu' & _).
      destruct (Hothers v c' Hv) as (_ & Hv' & _). by eapply Hinj.
  - apply put_connection_Raise in Hput as (Hst & Hpool & _ & _).
    destruct Hwf as [Hnd Hdis Hik Huk Hb Hcu Hinj]. simpl.
    split; rewrite ?Hpool; try done.
    + intros u c'. rewrite (get_current_storage u s s' Hst). apply Hcu.
    + intros u v c'. rewrite !(get_current_storage _ s s' Hst). apply Hinj.
Qed.

(** *** Acquiring a connection *)

Lemma acquire_Done t s r s' :
  acquire t s = Done r s' →
  ∃ c, r = Return c
       ∧ getconn (connection_pool s) = Return (c, connection_pool s')
       ∧ storage s' = <[t := Some c]> (storage s)
       ∧ sync_event s' = sync_event s
       ∧ closed s' = closed s
       ∧ c ∈ autocommit_off s'
       ∧ putconn_calls s' = putconn_calls s.
Proof.
  unfold acquire. destruct (getconn (connection_pool s)) as [[c pool]|e];
    [|discriminate].
  intros [= <- <-]. exists c. fields. repeat (split; [done|]).
  split; [set_solver|done].
Qed.

Lemma acquire_Blocked t s s' :
  acquire t s = Blocked (A:=Conn) s' →
  (∃ e, getconn (connection_pool s) = Raise e)
  ∧ storage s' = storage s
  ∧ connection_pool s' = connection_pool s
  ∧ sync_event s' = false.
Proof.
  unfold acquire. destruct (getconn (connection_pool s)) as [[c pool]|e];
    [discriminate|].
  intros [= <-]. fields. eauto.
Qed.

Lemma get_current_assigned t u c s s' :
  storage s' = <[t := Some c]> (storage s) →
  get_current_connection u s'
  = if decide (t = u) then Some c else get_current_connection u s.
Proof.
  unfold get_current_connection. intros ->. rewrite lookup_insert.
  destruct (decide (t = u)); reflexivity.
Qed.

Lemma wf_acquire t s : wf s → wf (outcome_state (acquire t s)).
Proof.
  intros Hwf. destruct (acquire t s) as [r s'|s'] eqn:Hacq; simpl.
  - apply acquire_Done in Hacq as (c & -> & Hget & Hst & _).
    apply getconn_Return in Hget as (Hused & Hmax & _ & Hidle).
    destruct Hwf as [Hnd Hdis Hik Huk Hb Hcu Hinj].
    assert (Hfresh : c ∉ used (connection_pool s)).
    { destruct Hidle as [[Hi _]|(_ & _ & -> & _)].
      - apply Hdis. rewrite Hi. set_solver.
      - intros Hin%Huk. lia. }
    assert (Hsize : size (used (connection_pool s'))
                    = S (size (used (connection_pool s)))).
    { rewrite Hused, size_union by set_solver. by rewrite size_singleton. }
    assert (Hothers : ∀ u c', get_current_connection u s' = Some c' →
              (t = u ∧ c' = c)
              ∨ (t ≠ u ∧ get_current_connection u s = Some c' ∧ c' ≠ c)).
    { intros u c' Hu. rewrite (get_current_assigned t u c s s' Hst) in Hu.
      destruct (decide (t = u)) as [|Hne]; [left; naive_solver|right].
      repeat split; [done..|]. intros ->. apply Hfresh. by eapply Hcu. }
    split; rewrite ?Hused, ?Hmax.
    + destruct Hidle as [[Hi _]|(_ & -> & _)]; [|constructor].
      rewrite Hi in Hnd. by apply NoDup_app in Hnd as (? & _ & _).
    + intros x Hx. destruct Hidle as [[Hi _]|(_ & Hi & _)].
      * rewrite Hi in Hnd, Hdis. apply NoDup_app in Hnd as (_ & Hnd & _).
        specialize (Hnd x Hx). specialize (Hdis x). set_solver.
      * rewrite Hi in Hx. by apply not_elem_of_nil in Hx.
    + intros x Hx. destruct Hidle as [[Hi ->]|(_ & Hi & _)].
      * apply Hik. rewrite Hi. set_solver.
      * rewrite Hi in Hx. by apply not_elem_of_nil in Hx.
    + intros x Hx. destruct Hidle as [[Hi ->]|(_ & _ & -> & -> & _)].
      * apply elem_of_union in Hx as [->%elem_of_singleton|Hx];
          [apply Hik; rewrite Hi; set_solver|by apply Huk].
      * apply elem_of_union in Hx as [->%elem_of_singleton|Hx%Huk]; lia.
    + rewrite <- Hused, Hsize.
      destruct Hidle as [[Hi _]|(Hi & -> & _ & _ & Hne)].
      * rewrite Hi, length_app in Hb. simpl in *. lia.
      * rewrite Hi in Hb. simpl in *. lia.
    + intros u c' Hu.
      destruct (Hothers u c' Hu) as [[_ ->]|(_ & Hu' & _)]; [set_solver|].
      specialize (Hcu u c' Hu'). set_solver.
    + intros u v c' Hu Hv.
      destruct (Hothers u c' Hu) as [[Htu Hc]|(_ & Hu' & Hne)];
        destruct (Hothers v c' Hv) as [[Htv Hc']|(_ & Hv' & Hne')];
        try congruence. by eapply Hinj.
  - apply acquire_Blocked in Hacq as (_ & Hst & Hpool & _).
    destruct Hwf as [Hnd Hdis Hik Huk Hb Hcu Hinj].
    split; rewrite ?Hpool; try done.
    + intros u c'. rewrite (get_current_storage u s s' Hst). apply Hcu.
    + intros u v c'. rewrite !(get_current_storage _ s s' Hst). apply Hinj.
Qed.

Lemma wf_get_connection t s : wf s → wf (outcome_state (get_connection t s)).
Proof.
  intros Hwf. unfold get_connection.
  destruct (sync_event s); simpl; [|done].
  destruct (get_current_connection t s) as [old|]; [|by apply wf_acquire].
  destruct (is_closed old s); [|done].
  pose proof (wf_put_connection t old true s Hwf) as Hput.
  destruct (_put_connection t old true s) as [[[]|e] s']; simpl in *;
    [by apply wf_acquire|done].
Qed.

Lemma wf_step op s : wf s → wf (step op s).1.
Proof.
  intros Hwf. destruct op as [t|t c has_error|c|c status]; simpl.
  - pose proof (wf_get_connection t s Hwf) as H.
    destruct (get_connection t s) as [[c|e] s'|s']; exact H.
  - by apply wf_put_connection.
  - destruct Hwf as [Hnd Hdis Hik Huk Hb Hcu Hinj]. by split.
  - destruct Hwf as [Hnd Hdis Hik Huk Hb Hcu Hinj]. by split.
Qed.

Lemma wf_run ops s : wf s → wf (run ops s).
Proof.
  revert s. induction ops as [|op ops IH]; intros s Hwf; [done|].
  simpl. apply IH. by apply wf_step.
Qed.

(** Entering the context leaves its connection as the current connection of
    the thread. *)
Lemma enter_current t s c s' :
  enter t s = Done (Return c) s' → get_current_connection t s' = Some c.
Proof.
  unfold enter, get_connection. destruct (sync_event s); [|discriminate].
  simpl. intros H.
  assert (∃ s1, acquire t s1 = Done (Return c) s') as [s1 Hacq].
  { destruct (get_current_connection t s) as [old|]; [|eauto].
    destruct (is_closed old s); [|discriminate].
    destruct (_put_connection t old true s) as [[[]|e] s1];
      [eauto|discriminate]. }
  apply acquire_Done in Hacq as (c' & [= <-] & _ & Hst & _).
  rewrite (get_current_assigned t t c s1 s' Hst). by rewrite decide_True.
Qed.

(** *** Discarded connections stay out *)

Lemma discarded_put_connection c t c' has_error s :
  discarded c s → discarded c (_put_connection t c' has_error s).2.
Proof.
  intros (Hidle & Hused & Hnext).
  destruct (_put_connection t c' has_error s) as [[[]|e] s'] eqn:Hput; simpl.
  - apply put_connection_Return in Hput
      as (_ & Hin & _ & _ & Hused' & Hnext' & _ & _ & Hidle').
    unfold discarded. rewrite Hused', Hnext'.
    split; [|split; [set_solver|done]].
    destruct Hidle' as [[-> _]|(-> & _)]; [done|].
    intros [?| ->%list_elem_of_singleton]%elem_of_app; done.
  - apply put_connection_Raise in Hput as (_ & Hpool & _).
    unfold discarded. by rewrite Hpool.
Qed.

Lemma discarded_acquire c t s :
  discarded c s →
  discarded c (outcome_state (acquire t s))
  ∧ ∀ s', acquire t s ≠ Done (Return c) s'.
Proof.
  intros (Hidle & Hused & Hnext).
  destruct (acquire t s) as [r s'|s'] eqn:Hacq; simpl.
  - apply acquire_Done in Hacq as (c' & -> & Hget & _).
    apply getconn_Return in Hget as (Hused' & _ & _ & Hidle').
    assert (Hne : c ≠ c').
    { intros <-. destruct Hidle' as [[Hi _]|(_ & _ & -> & _)]; [|lia].
      apply Hidle. rewrite Hi. set_solver. }
    split; [|congruence].
    unfold discarded. rewrite Hused'.
    destruct Hidle' as [[Hi ->]|(_ & -> & -> & -> & _)].
    + rewrite Hi in Hidle. set_solver.
    + split; [apply not_elem_of_nil|]. split; [set_solver|lia].
  - apply acquire_Blocked in Hacq as (_ & _ & Hpool & _).
    split; [|discriminate]. unfold discarded. by rewrite Hpool.
Qed.

Lemma discarded_get_connection c t s :
  discarded c s →
  discarded c (outcome_state (get_connection t s))
  ∧ ∀ s', get_connection t s ≠ Done (Return c) s'.
Proof.
  intros Hdis. unfold get_connection.
  destruct (sync_event s); simpl; [|by split].
  destruct (get_current_connection t s) as [old|];
    [|by apply discarded_acquire].
  destruct (is_closed old s); [|by split].
  pose proof (discarded_put_connection c t old true s Hdis) as Hput.
  destruct (_put_connection t old true s) as [[[]|e] s']; simpl in *;
    [by apply discarded_acquire|by split].
Qed.

Lemma discarded_step c op s :
  discarded c s → discarded c (step op s).1 ∧ (step op s).2 ≠ Some c.
Proof.
  intros Hdis. destruct op as [t|t c' has_error|c'|c' status]; simpl.
  - destruct (discarded_get_connection c t s Hdis) as [Hd Hne].
    destruct (get_connection t s) as [[c'|e] s'|s']; simpl in *;
      (split; [exact Hd|]); [|done..].
    intros [= ->]. by apply (Hne s').
  - split; [by apply discarded_put_connection|done].
  - by split.
  - by split.
Qed.

Lemma discarded_never_handed_out c ops s :
  discarded c s → c ∉ handed_out ops s.
Proof.
  revert s. induction ops as [|op ops IH]; intros s Hdis; simpl.
  - apply not_elem_of_nil.
  - destruct (discarded_step c op s Hdis) as [Hd Hne].
    destruct (step op s) as [s' [c'|]]; simpl in *; [|by apply IH].
    apply not_elem_of_cons. split; [congruence|by apply IH].
Qed.

(** C7: returning a connection that is not the calling thread's current
    connection is refused with [BadCodingError]; returning the current
    connection with [has_error] set closes it, takes it out of the pool without
    recycling it, clears the thread's slot, and no later run of the handler
    hands that connection out again. *)
Theorem put_connection_with_error t c s :
  (∀ has_error, get_current_connection t s ≠ Some c →
     put_connection t c has_error s = (Raise BadCodingError, s))
  ∧ (wf s → get_current_connection t s = Some c →
     ∃ s', put_connection t c true s = (Return tt, s')
           ∧ c ∈ closed s'
           ∧ (c ∉ idle (connection_pool s'))
           ∧ (c ∉ used (connection_pool s'))
           ∧ idle (connection_pool s') = idle (connection_pool s)
           ∧ get_current_connection t s' = None
           ∧ putconn_calls s' = putconn_calls s ++ [(c, true)]
           ∧ ∀ ops, c ∉ handed_out ops s').
Proof.
  split.
  - intros has_error Hcur. unfold put_connection, _put_connection.
    rewrite decide_True; [done|]. congruence.
  - intros Hwf Hcur. unfold put_connection.
    pose proof (wf_current_used s Hwf t c Hcur) as Hin.
    destruct (put_connection_total t c true s Hcur Hin (or_introl eq_refl))
      as [s' Hput].
    exists s'. split; [exact Hput|].
    apply put_connection_Return in Hput
      as (_ & _ & Hst & _ & Hused & Hnext & _ & Hcalls & Hidle).
    destruct Hidle as [[Hidle Hclosed]|(_ & _ & ? & _)]; [|discriminate].
    assert (Hnidle : c ∉ idle (connection_pool s')).
    { rewrite Hidle. intros Hi. by apply (wf_disjoint s Hwf c). }
    assert (Hnused : c ∉ used (connection_pool s')) by set_solver.
    split; [set_solver|]. do 3 (split; [done|]).
    split; [|split; [done|]].
    + rewrite (get_current_cleared t t s s' Hst). by rewrite decide_True.
    + intros ops. apply discarded_never_handed_out.
      repeat split; [done..|]. rewrite Hnext. by apply (wf_used_known s Hwf).
Qed.

Lemma put_connection_with_error_witness :
  ∃ s', put_connection 0 0 true (step (OpGet 0) (init 1 1)).1 = (Return tt, s')
        ∧ 0 ∈ closed s'
        ∧ (0 ∉ idle (connection_pool s'))
        ∧ (0 ∉ used (connection_pool s'))
        ∧ idle (connection_pool s')
          = idle (connection_pool (step (OpGet 0) (init 1 1)).1)
        ∧ get_current_connection 0 s' = None
        ∧ putconn_calls s'
          = putconn_calls (step (OpGet 0) (init 1 1)).1 ++ [(0, true)]
        ∧ ∀ ops, 0 ∉ handed_out ops s'.
Proof.
  apply (proj2 (put_connection_with_error 0 0 (step (OpGet 0) (init 1 1)).1)).
  - apply wf_step, wf_init. lia.
  - vm_compute. reflexivity.
Defined.

(** C6 (as amended): a call of [get_connection] that has passed the wake
    gate raises [BadCodingError], which the retry wrapper re-raises at once,
    when the calling thread holds a connection that is not closed; when the
    held connection is closed, it is discarded without an error and another
    connection is acquired and recorded as the thread's current connection.
    While the gate is cleared the call waits at the gate instead. *)
Theorem get_connection_one_per_thread t old s :
  get_current_connection t s = Some old →
  (sync_event s = false → get_connection t s = Blocked s)
  ∧ (sync_event s = true → old ∉ closed s →
     get_connection t s = Done (Raise BadCodingError) s
     ∧ ∀ World (fn : World → Result Conn * World) env w w',
         fn w = (Raise BadCodingError, w') →
         Retry.retry_on_db_failure fn env w
         = (Raise BadCodingError, w', [Retry.Attempt (Some BadCodingError)]))
  ∧ (sync_event s = true → old ∈ closed s → wf s →
     ∃ c s', get_connection t s = Done (Return c) s'
             ∧ c ≠ old
             ∧ get_current_connection t s' = Some c
             ∧ c ∈ used (connection_pool s')
             ∧ (old ∉ idle (connection_pool s'))
             ∧ (old ∉ used (connection_pool s'))
             ∧ putconn_calls s' = putconn_calls s ++ [(old, true)]
             ∧ ∀ ops, old ∉ handed_out ops s').
Proof.
  intros Hcur. unfold get_connection. rewrite Hcur. unfold is_closed.
  split; [by intros ->|]. split.
  - intros -> Hopen. simpl. rewrite bool_decide_eq_false_2 by assumption.
    split; [reflexivity|]. intros World fn env w w' Hfn.
    unfold Retry.retry_on_db_failure.
    by apply RetryFacts.loop_not_retryable.
  - intros -> Hclosed Hwf. simpl. rewrite bool_decide_eq_true_2 by assumption.
    pose proof (wf_current_used s Hwf t old Hcur) as Hin.
    destruct (put_connection_total t old true s Hcur Hin (or_introl eq_refl))
      as [s1 Hput].
    rewrite Hput.
    pose proof (wf_put_connection t old true s Hwf) as Hwf1.
    rewrite Hput in Hwf1. simpl in Hwf1.
    apply put_connection_Return in Hput
      as (_ & _ & Hst & _ & Hused & Hnext & Hmax & Hcalls & Hidle).
    destruct Hidle as [[Hidle Hcl]|(_ & _ & ? & _)]; [|discriminate].
    assert (Hdis : discarded old s1).
    { repeat split.
      - rewrite Hidle. intros Hi. by apply (wf_disjoint s Hwf old).
      - set_solver.
      - rewrite Hnext. by apply (wf_used_known s Hwf). }
    destruct (discarded_acquire old t s1 Hdis) as [Hdis' Hne].
    pose proof (wf_acquire t s1 Hwf1) as Hwf2.
    destruct (acquire t s1) as [r s2|s2] eqn:Hacq; simpl in *.
    + apply acquire_Done in Hacq as (c & -> & Hget & Hst2 & _ & _ & _ & Hc2).
      exists c, s2. split; [reflexivity|].
      split; [intros ->; by apply (Hne s2)|].
      split; [rewrite (get_current_assigned t t c s1 s2 Hst2);
              by rewrite decide_True|].
      apply getconn_Return in Hget as (Hused2 & _).
      split; [set_solver|].
      destruct Hdis' as (? & ? & ?). do 2 (split; [done|]).
      split; [congruence|].
      intros ops. by apply discarded_never_handed_out.
    + (* the pool cannot be exhausted: the discarded connection made room *)
      apply acquire_Blocked in Hacq as ([e Hget] & _).
      apply getconn_Raise in Hget as [Hempty Hfull].
      pose proof (wf_bound s Hwf) as Hb.
      assert (size (used (connection_pool s1))
              = size (used (connection_pool s)) - 1) as Hsize.
      { rewrite Hused, size_difference by set_solver.
        by rewrite size_singleton. }
      assert (0 < size (used (connection_pool s))).
      { destruct (decide (size (used (connection_pool s)) = 0)) as [Hz|];
          [|lia]. apply size_empty_inv in Hz. set_solver. }
      lia.
Qed.

Lemma get_connection_one_per_thread_witness :
  get_connection 0 (step (OpGet 0) (init 1 1)).1
  = Done (Raise BadCodingError) (step (OpGet 0) (init 1 1)).1.
Proof.
  apply (proj1 (proj2 (get_connection_one_per_thread 0 0
                         (step (OpGet 0) (init 1 1)).1 eq_refl))).
  - reflexivity.
  - vm_compute. set_solver.
Defined.

(** C6 (as stated) fails while the wake gate is cleared: after thread 1 has
    found the pool exhausted, thread 0, which holds the open connection 0,
    does not get [BadCodingError] from [get_connection]; it waits at the
    gate. *)
Lemma get_connection_waits_at_cleared_gate :
  get_current_connection 0 (run [OpGet 0; OpGet 1] (init 1 1)) = Some 0
  ∧ (0 ∉ closed (run [OpGet 0; OpGet 1] (init 1 1)))
  ∧ get_connection 0 (run [OpGet 0; OpGet 1] (init 1 1))
    = Blocked (run [OpGet 0; OpGet 1] (init 1 1))
  ∧ ∀ s', get_connection 0 (run [OpGet 0; OpGet 1] (init 1 1))
          ≠ Done (Raise BadCodingError) s'.
Proof.
  assert (Hb : get_connection 0 (run [OpGet 0; OpGet 1] (init 1 1))
               = Blocked (run [OpGet 0; OpGet 1] (init 1 1)))
    by (vm_compute; reflexivity).
  split; [vm_compute; reflexivity|]. split; [vm_compute; set_solver|].
  split; [exact Hb|]. intros s'. rewrite Hb. discriminate.
Qed.

(** C8, at the exit where the code breaks it: when the connection is open and
    its own exit handler (commit, or rollback after an exception) raises,
    [__exit__] ends there.  The error comes back as it is, not as a
    [DatabaseError]; [putconn] is not called; the pool still counts the
    connection as handed out and it stays the thread's current connection.
    If the failure left the connection open, the thread's next
    [get_connection] is refused with [BadCodingError]. *)
Theorem context_exit_commit_failure t c exception e closes s :
  get_current_connection t s = Some c →
  (c ∉ closed s) →
  exit t c exception (CallFails e closes) s
  = (Raise e, mark_closed c closes s)
  ∧ putconn_calls (exit t c exception (CallFails e closes) s).2
    = putconn_calls s
  ∧ connection_pool (exit t c exception (CallFails e closes) s).2
    = connection_pool s
  ∧ get_current_connection t (exit t c exception (CallFails e closes) s).2
    = Some c
  ∧ (closes = false → sync_event s = true →
     get_connection t (exit t c exception (CallFails e closes) s).2
     = Done (Raise BadCodingError)
         (exit t c exception (CallFails e closes) s).2).
Proof.
  intros Hcur Hopen.
  assert (Hexit : exit t c exception (CallFails e closes) s
                  = (Raise e, mark_closed c closes s)).
  { unfold exit, is_closed. by rewrite bool_decide_eq_false_2. }
  rewrite Hexit. cbn [snd]. repeat split; [done|].
  intros -> Hev. unfold get_connection, mark_closed, is_closed. fields.
  rewrite Hev. unfold get_current_connection in *. fields. rewrite Hcur.
  simpl. by rewrite bool_decide_eq_false_2.
Qed.

Lemma context_exit_commit_failure_witness :
  exit 0 0 None
    (CallFails (Psycopg2Error (mkPgError OperationalError (Some "40001")))
       false)
    (step (OpGet 0) (init 1 1)).1
  = (Raise (Psycopg2Error (mkPgError OperationalError (Some "40001"))),
     mark_closed 0 false (step (OpGet 0) (init 1 1)).1)
  ∧ putconn_calls
      (exit 0 0 None
         (CallFails (Psycopg2Error (mkPgError OperationalError (Some "40001")))
            false)
         (step (OpGet 0) (init 1 1)).1).2
    = putconn_calls (step (OpGet 0) (init 1 1)).1
  ∧ get_connection 0
      (exit 0 0 None
         (CallFails (Psycopg2Error (mkPgError OperationalError (Some "40001")))
            false)
         (step (OpGet 0) (init 1 1)).1).2
    = Done (Raise BadCodingError)
        (exit 0 0 None
           (CallFails
              (Psycopg2Error (mkPgError OperationalError (Some "40001")))
              false)
           (step (OpGet 0) (init 1 1)).1).2.
Proof.
  destruct (context_exit_commit_failure 0 0 None
              (Psycopg2Error (mkPgError OperationalError (Some "40001")))
              false (step (OpGet 0) (init 1 1)).1)
    as (Hexit & Hcalls & _ & _ & Hnext).
  - vm_compute. reflexivity.
  - vm_compute. set_solver.
  - split; [exact Hexit|]. split; [exact Hcalls|].
    apply Hnext; reflexivity.
Defined.

End HandlerFacts.

(** * Further properties *)

(** ** Translation: what the events of a translation cover *)
Module TranslationCoverage.
Import EventTranslator Views TranslatorFacts.

Lemma translate_update_Return fqid fields lf models db_events :
  translate (RequestUpdateEvent fqid fields lf) models = Return db_events →
  ∃ m, models !! fqid = Some m
       ∧ db_events =
           emitted_if (truthy (filter (fun item => not_None item = true) fields))
             (DbUpdateEvent fqid
                (filter (fun item => not_None item = true) fields))
           ++ emitted_if
                (truthy (filter (fun item => has_None item = true) fields))
                (DbDeleteFieldsEvent fqid
                   (map fst (filter (fun item => has_None item = true) fields)))
           ++ emitted_if
                (truthy (default [] (dict_get "add" lf))
                 || truthy (default [] (dict_get "remove" lf)))
                (DbListUpdateEvent fqid (default [] (dict_get "add" lf))
                   (default [] (dict_get "remove" lf)) m).
Proof.
  unfold translate. rewrite assert_model_exists_cases.
  destruct (models !! fqid) as [m|] eqn:Hm; [|discriminate].
  destruct (dict_get META_DELETED m) as [v|]; [|discriminate].
  destruct (is_True v); [discriminate|]. simpl.
  unfold create_update_events, getitem. rewrite Hm.
  intros H. exists m. split; [reflexivity|].
  destruct (filter (fun item => not_None item = true) fields),
    (filter (fun item => has_None item = true) fields),
    (truthy (default [] (dict_get "add" lf))
     || truthy (default [] (dict_get "remove" lf)));
    simpl in *; by injection H as <-.
Qed.

Lemma keys_partition (fields : Dict JSON) :
  dict_keys (filter (fun item => not_None item = true) fields)
  ++ map fst (filter (fun item => has_None item = true) fields)
  ≡ₚ dict_keys fields.
Proof.
  unfold dict_keys. induction fields as [|[f x] rest IH]; [done|].
  destruct (is_None x) eqn:Hx.
  - rewrite filter_cons_False by (unfold not_None; simpl; rewrite Hx; done).
    rewrite (filter_cons_True (fun item => has_None item = true))
      by (unfold has_None; simpl; done).
    simpl. rewrite <- IH. by rewrite Permutation_middle.
  - rewrite filter_cons_True by (unfold not_None; simpl; rewrite Hx; done).
    rewrite (filter_cons_False (fun item => has_None item = true))
      by (unfold has_None; simpl; congruence).
    simpl. by rewrite IH.
Qed.

(** X1: a translated Update loses no field and invents none: the names set by
    its Update event together with the names removed by its DeleteFields event
    are the names of the request's fields, each as often as it occurs. *)
Theorem update_fields_partition fqid fields lf models db_events :
  translate (RequestUpdateEvent fqid fields lf) models = Return db_events →
  written_fields db_events ++ removed_fields db_events ≡ₚ dict_keys fields.
Proof.
  intros (m & _ & ->)%translate_update_Return.
  rewrite <- (keys_partition fields).
  set (updated := filter (fun item => not_None item = true) fields).
  set (deleted := filter (fun item => has_None item = true) fields).
  unfold written_fields, removed_fields, emitted_if.
  destruct updated as [|u updated], deleted as [|d deleted],
    (truthy (default [] (dict_get "add" lf))
     || truthy (default [] (dict_get "remove" lf)));
    simpl; rewrite ?app_nil_r; reflexivity.
Qed.

Lemma update_fields_partition_witness :
  written_fields
    [DbUpdateEvent "a/1" [("x", JNum 1)]; DbDeleteFieldsEvent "a/1" ["y"]]
  ++ removed_fields
       [DbUpdateEvent "a/1" [("x", JNum 1)]; DbDeleteFieldsEvent "a/1" ["y"]]
  ≡ₚ dict_keys [("x", JNum 1); ("y", JNull)].
Proof.
  apply (update_fields_partition "a/1" [("x", JNum 1); ("y", JNull)] []
           {[ "a/1" := [("y", JNum 0); (META_DELETED, JBool false)] ]}).
  vm_compute. reflexivity.
Defined.

(** X2: a translated Update is the empty list exactly when the request has no
    fields and neither add nor remove deltas. *)
Theorem update_translates_to_nothing_iff fqid fields lf models db_events :
  translate (RequestUpdateEvent fqid fields lf) models = Return db_events →
  (db_events = []
   ↔ fields = [] ∧ default [] (dict_get "add" lf) = []
     ∧ default [] (dict_get "remove" lf) = []).
Proof.
  intros (m & _ & ->)%translate_update_Return. unfold emitted_if. split.
  - intros H.
    destruct (filter (fun item => not_None item = true) fields) eqn:Hu;
      [|discriminate].
    destruct (filter (fun item => has_None item = true) fields) eqn:Hd;
      [|discriminate].
    destruct (default [] (dict_get "add" lf)); [|discriminate].
    destruct (default [] (dict_get "remove" lf)); [|discriminate].
    repeat split. destruct fields as [|[f x] rest]; [done|].
    destruct (is_None x) eqn:Hx.
    + rewrite filter_cons_True in Hd by (unfold has_None; simpl; done).
      discriminate.
    + rewrite filter_cons_True in Hu
        by (unfold not_None; simpl; rewrite Hx; done).
      discriminate.
  - intros (-> & -> & ->). reflexivity.
Qed.

Lemma update_translates_to_nothing_iff_witness :
  ([] : list BaseDbEvent) = []
  ↔ ([] : Dict JSON) = [] ∧ default [] (dict_get "add" ([] : Dict (Dict JSON))) = []
    ∧ default [] (dict_get "remove" ([] : Dict (Dict JSON))) = [].
Proof.
  apply (update_translates_to_nothing_iff "a/1" [] []
           {[ "a/1" := [(META_DELETED, JBool false)] ]}).
  vm_compute. reflexivity.
Defined.

(** X3: every event of a translation is about the FQID of the request, and a
    Create, Delete or Restore never translates to more or less than one
    event. *)
Theorem translated_events_fqid ev models db_events :
  translate ev models = Return db_events →
  Forall (fun db_event => db_event_fqid db_event = event_fqid ev) db_events
  ∧ (match ev with
     | RequestUpdateEvent _ _ _ => True
     | _ => List.length db_events = 1%nat
     end).
Proof.
  destruct ev as [fqid fields|fqid fields lf|fqid|fqid|fqid].
  - unfold translate. rewrite assert_model_does_not_exist_cases.
    destruct (models !! fqid); [discriminate|]. intros [= <-].
    split; [by repeat constructor|reflexivity].
  - intros (m & _ & ->)%translate_update_Return. split; [|exact I].
    unfold emitted_if.
    destruct (truthy _), (truthy _), (truthy _ || truthy _);
      simpl; by repeat constructor.
  - unfold translate, getitem. rewrite assert_model_exists_cases.
    destruct (models !! fqid) as [m|]; [|discriminate].
    destruct (dict_get META_DELETED m) as [v|]; [|discriminate].
    destruct (is_True v); [discriminate|]. intros [= <-].
    split; [by repeat constructor|reflexivity].
  - unfold translate, getitem. rewrite assert_model_is_deleted_cases.
    destruct (models !! fqid) as [m|]; [|discriminate].
    destruct (dict_get META_DELETED m) as [v|]; [|discriminate].
    destruct (is_False v); [discriminate|]. intros [= <-].
    split; [by repeat constructor|reflexivity].
  - discriminate.
Qed.

Lemma translated_events_fqid_witness :
  Forall (fun db_event => db_event_fqid db_event = "b/2")
    [DbDeleteEvent "b/2" ["y"; META_DELETED]]
  ∧ List.length [DbDeleteEvent "b/2" ["y"; META_DELETED]] = 1%nat.
Proof.
  apply (translated_events_fqid (RequestDeleteEvent "b/2")
           {[ "b/2" := [("y", JNum 2); (META_DELETED, JBool false)] ]}).
  vm_compute. reflexivity.
Defined.

End TranslationCoverage.

(** ** Translation: the deletion marker and the rest of the mapping *)
Module MarkerFacts.
Import EventTranslator Views TranslatorFacts.

Lemma translate_delete_cases fqid models :
  translate (RequestDeleteEvent fqid) models =
  match models !! fqid with
  | None => Raise (ModelDoesNotExist fqid)
  | Some m =>
      match dict_get META_DELETED m with
      | None => Raise (KeyError META_DELETED)
      | Some v =>
          if is_True v then Raise (ModelDoesNotExist fqid)
          else Return [DbDeleteEvent fqid (dict_keys m)]
      end
  end.
Proof.
  unfold translate, getitem. rewrite assert_model_exists_cases.
  destruct (models !! fqid) as [m|]; [|reflexivity].
  destruct (dict_get META_DELETED m) as [v|]; [|reflexivity].
  destruct (is_True v); reflexivity.
Qed.

Lemma translate_restore_cases fqid models :
  translate (RequestRestoreEvent fqid) models =
  match models !! fqid with
  | None => Raise (ModelNotDeleted fqid)
  | Some m =>
      match dict_get META_DELETED m with
      | None => Raise (KeyError META_DELETED)
      | Some v =>
          if is_False v then Raise (ModelNotDeleted fqid)
          else Return [DbRestoreEvent fqid (dict_keys m)]
      end
  end.
Proof.
  unfold translate, getitem. rewrite assert_model_is_deleted_cases.
  destruct (models !! fqid) as [m|]; [|reflexivity].
  destruct (dict_get META_DELETED m) as [v|]; [|reflexivity].
  destruct (is_False v); reflexivity.
Qed.

Lemma translate_update_succeeds fqid fields lf models m v :
  models !! fqid = Some m → dict_get META_DELETED m = Some v →
  (succeeds (translate (RequestUpdateEvent fqid fields lf) models)
   ↔ is_True v = false).
Proof.
  intros Hm Hv. unfold translate, succeeds.
  rewrite assert_model_exists_cases, Hm, Hv.
  destruct (is_True v); simpl.
  - split; [intros [? ?]|]; discriminate.
  - split; [done|]. intros _. by eapply create_update_events_present.
Qed.

(** X4: on a model whose deletion marker is a boolean, Update and Delete
    succeed exactly when it is [False] and Restore exactly when it is [True]:
    of Delete and Restore one succeeds and the other fails. *)
Theorem boolean_marker_exclusive fqid fields lf models m (deleted : bool) :
  models !! fqid = Some m →
  dict_get META_DELETED m = Some (JBool deleted) →
  (succeeds (translate (RequestUpdateEvent fqid fields lf) models)
   ↔ deleted = false)
  ∧ (succeeds (translate (RequestDeleteEvent fqid) models) ↔ deleted = false)
  ∧ (succeeds (translate (RequestRestoreEvent fqid) models) ↔ deleted = true).
Proof.
  intros Hm Hv. split; [|split].
  - rewrite (translate_update_succeeds fqid fields lf models m _ Hm Hv).
    by destruct deleted.
  - rewrite translate_delete_cases, Hm, Hv. unfold succeeds.
    destruct deleted; simpl; split; eauto; try discriminate.
    intros [? ?]. discriminate.
  - rewrite translate_restore_cases, Hm, Hv. unfold succeeds.
    destruct deleted; simpl; split; eauto; try discriminate.
    intros [? ?]. discriminate.
Qed.

Lemma boolean_marker_exclusive_witness :
  (succeeds (translate (RequestUpdateEvent "a/1" [("x", JNum 1)] [])
               {[ "a/1" := [(META_DELETED, JBool true)] ]})
   ↔ true = false)
  ∧ (succeeds (translate (RequestDeleteEvent "a/1")
                 {[ "a/1" := [(META_DELETED, JBool true)] ]})
     ↔ true = false)
  ∧ (succeeds (translate (RequestRestoreEvent "a/1")
                 {[ "a/1" := [(META_DELETED, JBool true)] ]})
     ↔ true = true).
Proof.
  apply (boolean_marker_exclusive "a/1" [("x", JNum 1)] []
           {[ "a/1" := [(META_DELETED, JBool true)] ]}
           [(META_DELETED, JBool true)] true).
  - apply lookup_singleton_eq.
  - reflexivity.
Defined.

(** X5: the marker is compared by identity with [True] and [False], so a
    model whose marker is any other value (null, a number, a string) passes
    as existing and as deleted at once: Update, Delete and Restore all
    succeed on it. *)
Theorem non_boolean_marker_accepts_all fqid fields lf models m v :
  models !! fqid = Some m →
  dict_get META_DELETED m = Some v →
  (∀ b, v ≠ JBool b) →
  succeeds (translate (RequestUpdateEvent fqid fields lf) models)
  ∧ translate (RequestDeleteEvent fqid) models
    = Return [DbDeleteEvent fqid (dict_keys m)]
  ∧ translate (RequestRestoreEvent fqid) models
    = Return [DbRestoreEvent fqid (dict_keys m)].
Proof.
  intros Hm Hv Hnb.
  assert (Ht : is_True v = false).
  { destruct (is_True v) eqn:H; [|done]. apply is_True_spec in H.
    by destruct (Hnb true). }
  assert (Hf : is_False v = false).
  { destruct (is_False v) eqn:H; [|done]. apply is_False_spec in H.
    by destruct (Hnb false). }
  split; [|split].
  - by apply (translate_update_succeeds fqid fields lf models m v Hm Hv).
  - by rewrite translate_delete_cases, Hm, Hv, Ht.
  - by rewrite translate_restore_cases, Hm, Hv, Hf.
Qed.

Lemma non_boolean_marker_accepts_all_witness :
  succeeds (translate (RequestUpdateEvent "a/1" [("x", JNum 1)] [])
              {[ "a/1" := [(META_DELETED, JNull)] ]})
  ∧ translate (RequestDeleteEvent "a/1")
      {[ "a/1" := [(META_DELETED, JNull)] ]}
    = Return [DbDeleteEvent "a/1" (dict_keys [(META_DELETED, JNull)])]
  ∧ translate (RequestRestoreEvent "a/1")
      {[ "a/1" := [(META_DELETED, JNull)] ]}
    = Return [DbRestoreEvent "a/1" (dict_keys [(META_DELETED, JNull)])].
Proof.
  apply (non_boolean_marker_accepts_all "a/1" [("x", JNum 1)] []
           {[ "a/1" := [(META_DELETED, JNull)] ]}
           [(META_DELETED, JNull)] JNull).
  - apply lookup_singleton_eq.
  - reflexivity.
  - intros b. discriminate.
Defined.

(** X6: a translation looks at no model but the one of the request's FQID:
    two mappings that agree there give the same result, error or events. *)
Theorem translate_local ev (models models' : gmap Fqid Model) :
  models !! event_fqid ev = models' !! event_fqid ev →
  translate ev models = translate ev models'.
Proof.
  intros Heq.
  assert (Hc : contains models (event_fqid ev)
               = contains models' (event_fqid ev))
    by (unfold contains; by rewrite Heq).
  assert (Hg : getitem models (event_fqid ev)
               = getitem models' (event_fqid ev))
    by (unfold getitem; by rewrite Heq).
  destruct ev as [fqid fields|fqid fields lf|fqid|fqid|fqid]; simpl in *;
    unfold translate, assert_model_does_not_exist, assert_model_exists,
      assert_model_is_deleted, create_update_events;
    rewrite ?Hc, ?Hg; reflexivity.
Qed.

Lemma translate_local_witness :
  translate (RequestDeleteEvent "b/2")
    {[ "b/2" := [(META_DELETED, JBool false)] ]}
  = translate (RequestDeleteEvent "b/2")
      (<["a/1" := [(META_DELETED, JBool true)] ]>
         {[ "b/2" := [(META_DELETED, JBool false)] ]}).
Proof.
  apply (translate_local (RequestDeleteEvent "b/2")).
  vm_compute. reflexivity.
Defined.

(** X7: [create_update_events] on its own reads the model only for a
    ListUpdate event: for an FQID that is not in the mapping it fails with a
    key-lookup error exactly when add or remove is non-empty, and otherwise
    returns the Update and DeleteFields events. *)
Theorem create_update_events_absent fqid fields lf models :
  models !! fqid = None →
  (create_update_events fqid fields lf models = Raise (KeyError fqid)
   ↔ default [] (dict_get "add" lf) ≠ []
     ∨ default [] (dict_get "remove" lf) ≠ [])
  ∧ (default [] (dict_get "add" lf) = [] →
     default [] (dict_get "remove" lf) = [] →
     create_update_events fqid fields lf models
     = Return
         (emitted_if (truthy (filter (fun item => not_None item = true) fields))
            (DbUpdateEvent fqid
               (filter (fun item => not_None item = true) fields))
          ++ emitted_if
               (truthy (filter (fun item => has_None item = true) fields))
               (DbDeleteFieldsEvent fqid
                  (map fst
                     (filter (fun item => has_None item = true) fields))))).
Proof.
  intros Hm. unfold create_update_events, getitem, emitted_if. rewrite Hm.
  split.
  - destruct (default [] (dict_get "add" lf)) as [|a add],
      (default [] (dict_get "remove" lf)) as [|r remove]; simpl.
    + split; [|intros [?|?]; done].
      destruct (truthy _), (truthy _); discriminate.
    + split; [right; discriminate|reflexivity].
    + split; [left; discriminate|reflexivity].
    + split; [left; discriminate|reflexivity].
  - intros -> ->. simpl.
    destruct (filter (fun item => not_None item = true) fields),
      (filter (fun item => has_None item = true) fields); reflexivity.
Qed.

Lemma create_update_events_absent_witness :
  create_update_events "a/1" [("x", JNull)]
    [("add", [("l", JList [JNum 1])])] ∅
  = Raise (KeyError "a/1").
Proof.
  apply (proj1 (create_update_events_absent "a/1" [("x", JNull)]
                  [("add", [("l", JList [JNum 1])])] ∅ (lookup_empty _))).
  left. discriminate.
Defined.

End MarkerFacts.

(** ** The retry wrapper and the calls it makes *)
Module RetryCalls.
Import Retry Views RetryFacts.

Section Calls.
Context {World A : Type}.
Variable fn : World → Result A * World.
Variables timeout max_retries : Z.

(** One round of the loop. *)
Lemma loop_step tries w :
  loop fn timeout max_retries tries w =
  let '(r, w') := fn w in
  if retryable r then
    if Z_lt_dec (tries + 1) max_retries then
      match pause timeout with
      | Raise e => (Raise e, w', [Attempt (failure r); Info])
      | Return slept =>
          let '(r', w'', effects) :=
            loop fn timeout max_retries (tries + 1) w' in
          (r', w'', Attempt (failure r) :: Info :: slept ++ effects)
      end
    else (r, w', [Attempt (failure r)])
  else (r, w', [Attempt (failure r)]).
Proof.
  funelim (loop fn timeout max_retries tries w); clear Heqcall;
    repeat match goal with
           | H : fn _ = _ |- _ => rewrite H; clear H
           | H : retryable _ = _ |- _ => rewrite H; clear H
           | H : Z_lt_dec _ _ = _ |- _ => rewrite H; clear H
           | H : pause _ = _ |- _ => rewrite H; clear H
           end; reflexivity.
Qed.

Lemma outcome_of_call_S n w :
  outcome_of_call fn (S n) w = outcome_of_call fn n (fn w).2.
Proof. reflexivity. Qed.

(** The run against the sequence of calls of [fn]. *)
Lemma loop_calls tries w :
  let res := loop fn timeout max_retries tries w in
  ∃ n : nat,
    attempts res.2 = Z.of_nat (S n)
    ∧ res.1.2 = after_calls fn (S n) w
    ∧ (∀ k, (k < n)%nat → retryable (outcome_of_call fn k w) = true)
    ∧ ((0 ≤ timeout)%Z → res.1.1 = outcome_of_call fn n w).
Proof.
  funelim (loop fn timeout max_retries tries w); simpl; clear Heqcall.
  - exists 0%nat. unfold outcome_of_call. simpl.
    match goal with Hf : fn w = _ |- _ => rewrite Hf end.
    split; [reflexivity|]. split; [reflexivity|].
    split; [intros k Hk; lia|reflexivity].
  - exists 0%nat. unfold outcome_of_call. simpl.
    match goal with Hf : fn w = _ |- _ => rewrite Hf end.
    split; [reflexivity|]. split; [reflexivity|].
    split; [intros k Hk; lia|reflexivity].
  - match goal with Hf : fn w = _ |- _ => rename Hf into Hfn end.
    destruct (loop fn timeout max_retries (tries + 1) w')
      as [[r' w''] effects].
    simpl in *. destruct H as (n & Hn & Hw & Hearlier & Hres).
    exists (S n).
    assert (Hslept : attempts (slept ++ effects) = attempts effects).
    { match goal with Hq : pause _ = _ |- _ =>
        destruct (pause_cases timeout) as [[_ Hp]|[_ Hp]];
        rewrite Hp in Hq; [injection Hq as <-|discriminate] end.
      apply attempts_delay. }
    rewrite attempts_cons_attempt, attempts_skip, Hslept by reflexivity.
    split; [lia|]. split; [by rewrite Hw, Hfn|]. split.
    + intros [|k] Hk.
      * unfold outcome_of_call. simpl. by rewrite Hfn.
      * rewrite outcome_of_call_S, Hfn. apply Hearlier. lia.
    + intros Hpos. rewrite outcome_of_call_S, Hfn. by apply Hres.
  - exists 0%nat. rewrite attempts_cons_attempt, attempts_skip by reflexivity.
    unfold attempts, outcome_of_call. simpl.
    match goal with Hf : fn w = _ |- _ => rewrite Hf end.
    split; [reflexivity|]. split; [reflexivity|].
    split; [intros k Hk; lia|]. intros Hpos.
    match goal with Hq : pause _ = _ |- _ =>
      destruct (pause_cases timeout) as [[_ Hp]|[Hneg _]]; [|lia];
      rewrite Hp in Hq; discriminate end.
Qed.

End Calls.

Lemma retry_run_sleeps timeout outcome effects :
  retry_run timeout outcome effects →
  slept_ms effects = ((attempts effects - 1) * timeout)%Z
  ∧ ((0 ≤ timeout)%Z → infos effects = (attempts effects - 1)%Z).
Proof.
  induction 1 as [o|base Hb Hneg|base o rest Hb Hpos Hrest [IHs IHi]].
  - unfold attempts. simpl. split; [lia|intros _; lia].
  - rewrite attempts_cons_attempt, attempts_skip by reflexivity.
    unfold attempts. simpl. split; lia.
  - rewrite attempts_cons_attempt, attempts_skip, attempts_delay
      by reflexivity.
    specialize (IHi Hpos). unfold delay.
    destruct (decide (timeout = 0)%Z) as [->|]; simpl; split; lia.
Qed.

(** X8: the wrapper against the calls it makes.  It calls the operation some
    n+1 times in a row, each call in the world the previous one left; every
    call but the last ended in a retryable disconnection; the world it hands
    back is the world after the last call; and, the delay not being negative,
    its outcome is the outcome of the last call. *)
Theorem retry_follows_calls {World A} (fn : World → Result A * World)
    (env : string → option Z) (w : World) :
  let res := retry_on_db_failure fn env w in
  ∃ n : nat,
    attempts res.2 = Z.of_nat (S n)
    ∧ res.1.2 = after_calls fn (S n) w
    ∧ (∀ k, (k < n)%nat → retryable (outcome_of_call fn k w) = true)
    ∧ ((0 ≤ default 10 (env "DATASTORE_RETRY_TIMEOUT"))%Z →
       res.1.1 = outcome_of_call fn n w).
Proof. unfold retry_on_db_failure. apply loop_calls. Qed.

Lemma retry_follows_calls_witness :
  ∃ n : nat,
    attempts
      (retry_on_db_failure
         (fun k : nat =>
            (if decide (k < 2)%nat
             then Raise (DatabaseError (PgBase (mkPgError OperationalError None)))
             else Return k, S k))
         (fun _ => None) 0%nat).2
    = Z.of_nat (S n)
    ∧ (retry_on_db_failure
         (fun k : nat =>
            (if decide (k < 2)%nat
             then Raise (DatabaseError (PgBase (mkPgError OperationalError None)))
             else Return k, S k))
         (fun _ => None) 0%nat).1.1
      = outcome_of_call
          (fun k : nat =>
             (if decide (k < 2)%nat
              then Raise (DatabaseError (PgBase (mkPgError OperationalError None)))
              else Return k, S k)) n 0%nat.
Proof.
  destruct (retry_follows_calls
              (fun k : nat =>
                 (if decide (k < 2)%nat
                  then Raise (DatabaseError
                                (PgBase (mkPgError OperationalError None)))
                  else Return k, S k))
              (fun _ => None) 0%nat) as (n & Hn & _ & _ & Hres).
  exists n. split; [exact Hn|]. apply Hres. vm_compute. discriminate.
Defined.

(** X9: the wrapper recovers.  When the first k calls end in retryable
    disconnections, call k+1 does not, k+1 is within the configured maximum
    (or k is 0) and the delay is not negative, the wrapper answers with the
    outcome of call k+1, after exactly k+1 attempts. *)
Theorem retry_recovers {World A} (fn : World → Result A * World)
    (env : string → option Z) (w : World) (k : nat) :
  (0 ≤ default 10 (env "DATASTORE_RETRY_TIMEOUT"))%Z →
  (∀ j, (j < k)%nat → retryable (outcome_of_call fn j w) = true) →
  retryable (outcome_of_call fn k w) = false →
  (Z.of_nat k < default 3 (env "DATASTORE_MAX_RETRIES"))%Z ∨ k = 0%nat →
  let res := retry_on_db_failure fn env w in
  res.1.1 = outcome_of_call fn k w
  ∧ res.1.2 = after_calls fn (S k) w
  ∧ attempts res.2 = Z.of_nat (S k).
Proof.
  intros Hpos Hbefore Hk Hwithin. unfold retry_on_db_failure. simpl.
  set (timeout := default 10%Z (env "DATASTORE_RETRY_TIMEOUT")) in *.
  set (max_retries := default 3%Z (env "DATASTORE_MAX_RETRIES")) in *.
  destruct (loop_calls fn timeout max_retries 0 w)
    as (n & Hn & Hw & Hearlier & Hres).
  destruct (loop_spec fn timeout max_retries 0 w) as (_ & Hbound & Hmax & _).
  specialize (Hres Hpos). rewrite Z.sub_0_r in Hbound, Hmax.
  assert (n = k) as ->; [|by rewrite Hres, Hw, Hn].
  destruct (Nat.lt_trichotomy n k) as [Hlt|[Heq|Hgt]]; [|done|].
  - rewrite Hres in Hmax. specialize (Hmax (Hbefore n Hlt)). lia.
  - specialize (Hearlier k Hgt). congruence.
Qed.

Lemma retry_recovers_witness :
  (retry_on_db_failure
     (fun k : nat =>
        (if decide (k < 2)%nat
         then Raise (DatabaseError (PgBase (mkPgError OperationalError None)))
         else Return k, S k))
     (fun _ => None) 0%nat).1.1
  = Return 2%nat.
Proof.
  refine (proj1 (retry_recovers
                   (fun k : nat =>
                      (if decide (k < 2)%nat
                       then Raise (DatabaseError
                                     (PgBase (mkPgError OperationalError None)))
                       else Return k, S k))
                   (fun _ => None) 0%nat 2%nat _ _ _ _)).
  - vm_compute. discriminate.
  - intros [|[|j]] Hj; [reflexivity..|lia].
  - reflexivity.
  - left. vm_compute. reflexivity.
Defined.

(** X10: the time the wrapper puts the caller to sleep is the configured delay
    times the number of retries, hence at most delay times (max(1, configured
    maximum) - 1) when the delay is not negative; and it writes one log line
    per retry. *)
Theorem retry_total_delay {World A} (fn : World → Result A * World)
    (env : string → option Z) (w : World) :
  let timeout := default 10%Z (env "DATASTORE_RETRY_TIMEOUT") in
  let max_retries := default 3%Z (env "DATASTORE_MAX_RETRIES") in
  let res := retry_on_db_failure fn env w in
  slept_ms res.2 = ((attempts res.2 - 1) * timeout)%Z
  ∧ ((0 ≤ timeout)%Z →
     infos res.2 = (attempts res.2 - 1)%Z
     ∧ (0 ≤ slept_ms res.2 ≤ (Z.max 1 max_retries - 1) * timeout)%Z).
Proof.
  intros timeout max_retries res. subst res. unfold retry_on_db_failure.
  fold timeout max_retries.
  destruct (loop_spec fn timeout max_retries 0 w) as (Hrun & Hbound & _).
  rewrite Z.sub_0_r in Hbound.
  destruct (retry_run_sleeps _ _ _ Hrun) as [Hs Hi].
  split; [exact Hs|]. intros Hpos. split; [by apply Hi|]. rewrite Hs. nia.
Qed.

Lemma retry_total_delay_witness :
  infos
    (retry_on_db_failure
       (fun n : nat =>
          (@Raise unit
             (DatabaseError (PgBase (mkPgError OperationalError None))),
           S n))
       (fun _ => None) 0%nat).2
  = 2%Z
  ∧ slept_ms
      (retry_on_db_failure
         (fun n : nat =>
            (@Raise unit
               (DatabaseError (PgBase (mkPgError OperationalError None))),
             S n))
         (fun _ => None) 0%nat).2
    = 20%Z.
Proof.
  destruct (retry_total_delay
              (fun n : nat =>
                 (@Raise unit
                    (DatabaseError (PgBase (mkPgError OperationalError None))),
                  S n))
              (fun _ => None) 0%nat) as [Hs Hi].
  split.
  - rewrite (proj1 (Hi ltac:(vm_compute; discriminate))).
    vm_compute. reflexivity.
  - rewrite Hs. vm_compute. reflexivity.
Defined.

(** X11: a negative configured delay turns the first retry into a
    [ValueError]: after a retryable disconnection with retries left, [sleep]
    refuses the delay, the operation is not called again and the
    disconnection error is lost. *)
Theorem retry_negative_delay {World A} (fn : World → Result A * World)
    (env : string → option Z) (w w' : World) (base : BaseException) :
  (default 10 (env "DATASTORE_RETRY_TIMEOUT") < 0)%Z →
  (1 < default 3 (env "DATASTORE_MAX_RETRIES"))%Z →
  fn w = (Raise (DatabaseError base), w') →
  is_connection_break base = true →
  retry_on_db_failure fn env w
  = (Raise ValueError, w', [Attempt (Some (DatabaseError base)); Info]).
Proof.
  intros Hneg Hmax Hfn Hbase. unfold retry_on_db_failure.
  rewrite loop_step, Hfn. simpl. rewrite Hbase.
  destruct (Z_lt_dec _ _) as [_|Hn]; [|lia].
  destruct (pause_cases (default 10%Z (env "DATASTORE_RETRY_TIMEOUT")))
    as [[Hpos _]|[_ ->]]; [lia|reflexivity].
Qed.

Lemma retry_negative_delay_witness :
  retry_on_db_failure
    (fun n : nat =>
       (@Raise unit (DatabaseError (PgBase (mkPgError OperationalError None))),
        S n))
    (fun name => if decide (name = "DATASTORE_RETRY_TIMEOUT") then Some (-5)%Z
                 else None)
    0%nat
  = (Raise ValueError, 1%nat,
     [Attempt (Some (DatabaseError (PgBase (mkPgError OperationalError None))));
      Info]).
Proof.
  apply (retry_negative_delay
           (fun n : nat =>
              (@Raise unit
                 (DatabaseError (PgBase (mkPgError OperationalError None))),
               S n))
           (fun name => if decide (name = "DATASTORE_RETRY_TIMEOUT")
                        then Some (-5)%Z else None)
           0%nat 1%nat (PgBase (mkPgError OperationalError None))).
  - vm_compute. reflexivity.
  - vm_compute. reflexivity.
  - reflexivity.
  - reflexivity.
Defined.

End RetryCalls.

(** ** The connection handler: ownership, exhaustion, release *)
Module HandlerOwnership.
Import ConnectionHandler Views HandlerFacts.
Local Open Scope nat_scope.
#[local] Set Warnings "-clear-no-such-hyp".

Lemma put_connection_maxconn t c has_error s :
  maxconn (connection_pool (_put_connection t c has_error s).2)
  = maxconn (connection_pool s).
Proof.
  destruct (_put_connection t c has_error s) as [[[]|e] s'] eqn:Hput; simpl.
  - by apply put_connection_Return in Hput
      as (_ & _ & _ & _ & _ & _ & Hmax & _).
  - apply put_connection_Raise in Hput as (_ & Hpool & _). by rewrite Hpool.
Qed.

Lemma acquire_maxconn t s :
  maxconn (connection_pool (outcome_state (acquire t s)))
  = maxconn (connection_pool s).
Proof.
  destruct (acquire t s) as [r s'|s'] eqn:Hacq; simpl.
  - apply acquire_Done in Hacq as (c & _ & Hget & _).
    by apply getconn_Return in Hget as (_ & Hmax & _).
  - apply acquire_Blocked in Hacq as (_ & _ & Hpool & _). by rewrite Hpool.
Qed.

Lemma step_maxconn op s :
  maxconn (connection_pool (step op s).1) = maxconn (connection_pool s).
Proof.
  destruct op as [t|t c has_error|c|c status]; simpl.
  - assert (maxconn (connection_pool (outcome_state (get_connection t s)))
            = maxconn (connection_pool s)) as H.
    { unfold get_connection. destruct (sync_event s); simpl; [|done].
      destruct (get_current_connection t s) as [old|];
        [|apply acquire_maxconn].
      destruct (is_closed old s); [|done].
      pose proof (put_connection_maxconn t old true s) as Hput.
      destruct (_put_connection t old true s) as [[[]|e] s1]; simpl in *;
        [|done]. by rewrite acquire_maxconn. }
    destruct (get_connection t s) as [[c|e] s'|s']; exact H.
  - apply put_connection_maxconn.
  - reflexivity.
  - reflexivity.
Qed.

Lemma run_maxconn ops s :
  maxconn (connection_pool (run ops s)) = maxconn (connection_pool s).
Proof.
  revert s. induction ops as [|op ops IH]; intros s; [done|].
  simpl. by rewrite IH, step_maxconn.
Qed.

(** X12: whatever the threads do (get, put, with or without error) and
    whichever connections break, the handler never has more than
    DATASTORE_MAX_CONNECTIONS connections, idle and handed out together; the
    current connection of a thread is one the pool handed out; and no two
    threads have the same current connection. *)
Theorem pool_bounded_and_exclusive min_conn max_conn ops :
  min_conn ≤ max_conn →
  let s := run ops (init min_conn max_conn) in
  List.length (idle (connection_pool s)) + size (used (connection_pool s))
    ≤ max_conn
  ∧ (∀ t c, get_current_connection t s = Some c →
       c ∈ used (connection_pool s) ∧ (c ∉ idle (connection_pool s)))
  ∧ (∀ t u c, get_current_connection t s = Some c →
       get_current_connection u s = Some c → t = u).
Proof.
  intros Hle s.
  assert (Hwf : wf s) by (apply wf_run, wf_init, Hle).
  pose proof (run_maxconn ops (init min_conn max_conn)) as Hmax.
  fold s in Hmax. simpl in Hmax. split; [|split].
  - rewrite <- Hmax. apply (wf_bound s Hwf).
  - intros t c Hcur. pose proof (wf_current_used s Hwf t c Hcur) as Hin.
    split; [exact Hin|]. intros Hi. by apply (wf_disjoint s Hwf c).
  - apply (wf_current_inj s Hwf).
Qed.

Lemma pool_bounded_and_exclusive_witness :
  List.length
    (idle (connection_pool (run [OpGet 0; OpGet 1; OpPut 0 0 true; OpGet 1]
                              (init 1 2))))
  + size (used (connection_pool
                  (run [OpGet 0; OpGet 1; OpPut 0 0 true; OpGet 1]
                     (init 1 2))))
  ≤ 2.
Proof.
  apply (pool_bounded_and_exclusive 1 2
           [OpGet 0; OpGet 1; OpPut 0 0 true; OpGet 1]).
  lia.
Defined.

Lemma get_connection_free t s :
  sync_event s = true → get_current_connection t s = None →
  get_connection t s = acquire t s.
Proof. intros Hev Hcur. unfold get_connection. by rewrite Hev, Hcur. Qed.

Lemma acquire_total t s :
  idle (connection_pool s) ≠ []
  ∨ size (used (connection_pool s)) ≠ maxconn (connection_pool s) →
  ∃ c s', acquire t s = Done (Return c) s'.
Proof.
  intros Hroom. unfold acquire.
  destruct (getconn (connection_pool s)) as [[c pool]|e] eqn:Hget; [eauto|].
  apply getconn_Raise in Hget as [Hidle Hfull]. by destruct Hroom.
Qed.

(** X13: a thread without a connection that has passed the wake gate gets a
    connection unless the pool is exhausted (nothing idle, [maxconn] handed
    out); exactly then the call clears the gate, changes nothing else, and
    waits.  The connection it gets was handed out to nobody, is the thread's
    current connection afterwards, and has autocommit switched off. *)
Theorem get_connection_blocks_iff_exhausted t s :
  wf s → sync_event s = true → get_current_connection t s = None →
  (idle (connection_pool s) = []
   ∧ size (used (connection_pool s)) = maxconn (connection_pool s) →
   get_connection t s
   = Blocked (mkState (storage s) false (connection_pool s) (closed s)
                (autocommit_off s) (putconn_calls s) (tx_status s)))
  ∧ (idle (connection_pool s) ≠ []
     ∨ size (used (connection_pool s)) ≠ maxconn (connection_pool s) →
     ∃ c s', get_connection t s = Done (Return c) s'
             ∧ (c ∉ used (connection_pool s))
             ∧ (∀ u, get_current_connection u s ≠ Some c)
             ∧ get_current_connection t s' = Some c
             ∧ c ∈ used (connection_pool s')
             ∧ c ∈ autocommit_off s'
             ∧ putconn_calls s' = putconn_calls s).
Proof.
  intros Hwf Hev Hcur. rewrite (get_connection_free t s Hev Hcur). split.
  - intros [Hidle Hfull]. unfold acquire, getconn.
    rewrite Hidle. simpl. by rewrite decide_True.
  - intros Hroom. destruct (acquire_total t s Hroom) as (c & s' & Hacq).
    exists c, s'. split; [exact Hacq|].
    apply acquire_Done in Hacq as (c' & [= <-] & Hget & Hst & _ & _ & Hac & Hcalls).
    apply getconn_Return in Hget as (Hused & _ & _ & Hidle).
    assert (Hfresh : c ∉ used (connection_pool s)).
    { destruct Hidle as [[Hi _]|(_ & _ & -> & _)].
      - apply (wf_disjoint s Hwf). rewrite Hi. set_solver.
      - intros Hin%(wf_used_known s Hwf). lia. }
    split; [exact Hfresh|]. split.
    { intros u Hu. apply Hfresh. by apply (wf_current_used s Hwf u). }
    split.
    { rewrite (get_current_assigned t t c s s' Hst). by rewrite decide_True. }
    split; [set_solver|]. by split.
Qed.

Lemma get_connection_blocks_iff_exhausted_witness :
  ∃ c s', get_connection 0 (init 1 1) = Done (Return c) s'
          ∧ (c ∉ used (connection_pool (init 1 1)))
          ∧ (∀ u, get_current_connection u (init 1 1) ≠ Some c)
          ∧ get_current_connection 0 s' = Some c
          ∧ c ∈ used (connection_pool s')
          ∧ c ∈ autocommit_off s'
          ∧ putconn_calls s' = putconn_calls (init 1 1).
Proof.
  apply (proj2 (get_connection_blocks_iff_exhausted 0 (init 1 1)
                  (wf_init 1 1 (le_n 1)) eq_refl eq_refl)).
  left. discriminate.
Defined.

(** X14: a connection cannot be returned twice.  After a completed
    [put_connection] the thread has no current connection, the gate is set,
    and a second [put_connection] of the same connection by the same thread,
    with or without error, is refused with [BadCodingError] and changes
    nothing. *)
Theorem put_connection_twice t c has_error again s s' :
  put_connection t c has_error s = (Return tt, s') →
  get_current_connection t s' = None
  ∧ sync_event s' = true
  ∧ put_connection t c again s' = (Raise BadCodingError, s').
Proof.
  unfold put_connection. intros Hput.
  apply put_connection_Return in Hput as (_ & _ & Hst & Hev & _).
  assert (Hcur : get_current_connection t s' = None).
  { rewrite (get_current_cleared t t s s' Hst). by rewrite decide_True. }
  split; [exact Hcur|]. split; [exact Hev|].
  unfold _put_connection. rewrite Hcur. by rewrite decide_True.
Qed.

Lemma put_connection_twice_witness :
  get_current_connection 0
    (put_connection 0 0 false (step (OpGet 0) (init 1 1)).1).2 = None
  ∧ sync_event (put_connection 0 0 false (step (OpGet 0) (init 1 1)).1).2
    = true
  ∧ put_connection 0 0 true
      (put_connection 0 0 false (step (OpGet 0) (init 1 1)).1).2
    = (Raise BadCodingError,
       (put_connection 0 0 false (step (OpGet 0) (init 1 1)).1).2).
Proof.
  apply (put_connection_twice 0 0 false true (step (OpGet 0) (init 1 1)).1).
  vm_compute. reflexivity.
Defined.

(** X15: a thread cannot return a connection that is another thread's
    current connection: the call is refused with [BadCodingError], and pool,
    slots and gate stay as they are. *)
Theorem foreign_put_refused t u c has_error s :
  wf s → get_current_connection t s = Some c → u ≠ t →
  put_connection u c has_error s = (Raise BadCodingError, s).
Proof.
  intros Hwf Hcur Hne. unfold put_connection, _put_connection.
  rewrite decide_True; [done|].
  intros Hu. apply Hne. symmetry in Hu. by apply (wf_current_inj s Hwf u t c).
Qed.

Lemma foreign_put_refused_witness :
  put_connection 1 0 false (step (OpGet 0) (init 1 1)).1
  = (Raise BadCodingError, (step (OpGet 0) (init 1 1)).1).
Proof.
  apply (foreign_put_refused 0 1 0 false (step (OpGet 0) (init 1 1)).1).
  - apply wf_step, wf_init. lia.
  - vm_compute. reflexivity.
  - lia.
Defined.

(** X16: a release serves a waiter.  A [put_connection] of the holder's
    connection completes whenever the pool does not have to roll back a
    transaction whose rollback fails (with error, on a closed connection, or on
    any other status it always completes).  Once it has completed, the gate is
    set and the next [get_connection] of a thread without a connection gets
    one: another connection than the returned one if that was returned with
    error, and the returned connection itself if it was recycled. *)
Theorem release_serves_waiter t u c has_error s :
  wf s → get_current_connection t s = Some c →
  u ≠ t → get_current_connection u s = None →
  (has_error = true ∨ c ∈ closed s
   ∨ (∀ e closes, tx_status s !! c ≠ Some (TxOpen (CallFails e closes))) →
   ∃ s1, put_connection t c has_error s = (Return tt, s1))
  ∧ ∀ s1, put_connection t c has_error s = (Return tt, s1) →
      ∃ c' s2,
        get_connection u s1 = Done (Return c') s2
        ∧ get_current_connection u s2 = Some c'
        ∧ (has_error = true → c' ≠ c)
        ∧ (idle (connection_pool s1) = idle (connection_pool s) ++ [c] →
           c' = c).
Proof.
  intros Hwf Hcur Hne Hu. unfold put_connection.
  pose proof (wf_current_used s Hwf t c Hcur) as Hin.
  split; [apply (put_connection_total t c has_error s Hcur Hin)|].
  intros s1 Hput.
  pose proof (wf_put_connection t c has_error s Hwf) as Hwf1.
  rewrite Hput in Hwf1. simpl in Hwf1. pose proof Hput as Hput'.
  apply put_connection_Return in Hput'
    as (_ & _ & Hst & Hev & Hused & Hnext & Hmax & _ & Hidle).
  assert (Hu1 : get_current_connection u s1 = None).
  { rewrite (get_current_cleared t u s s1 Hst).
    by destruct (decide (t = u)). }
  assert (Hroom : idle (connection_pool s1) ≠ []
                  ∨ size (used (connection_pool s1))
                    ≠ maxconn (connection_pool s1)).
  { right. pose proof (wf_bound s Hwf) as Hb.
    rewrite Hused, Hmax, size_difference, size_singleton by set_solver.
    assert (0 < size (used (connection_pool s))); [|lia].
    destruct (decide (size (used (connection_pool s)) = 0)) as [Hz|]; [|lia].
    apply size_empty_inv in Hz. set_solver. }
  destruct (acquire_total u s1 Hroom) as (c' & s2 & Hacq).
  exists c', s2.
  rewrite (get_connection_free u s1 Hev Hu1). split; [exact Hacq|].
  apply acquire_Done in Hacq as (c0 & [= <-] & Hget & Hst2 & _).
  split.
  { rewrite (get_current_assigned u u c' s1 s2 Hst2). by rewrite decide_True. }
  apply getconn_Return in Hget as (_ & _ & _ & Hpop).
  split.
  - intros ->. destruct Hidle as [[Hi _]|(_ & _ & ? & _)]; [|discriminate].
    intros ->. destruct Hpop as [[Hi' _]|(_ & _ & -> & _)].
    + apply (wf_disjoint s Hwf c); [|exact Hin].
      rewrite <- Hi, Hi'. set_solver.
    + rewrite Hnext in Hin. apply (wf_used_known s Hwf) in Hin. lia.
  - intros Hi. destruct Hpop as [[Hi' _]|(Hempty & _)].
    + rewrite Hi in Hi'. by apply app_inj_tail in Hi' as [_ ->].
    + rewrite Hi in Hempty. by destruct (idle (connection_pool s)).
Qed.

Lemma release_serves_waiter_witness :
  ∃ c' s2,
    get_connection 1
      (put_connection 0 0 false
         (run [OpGet 0; OpGet 1;
               OpStatus 0
                 (Some (TxOpen
                          (CallFails
                             (Psycopg2Error (mkPgError OperationalError None))
                             true)));
               OpBreak 0]
            (init 1 1))).2
    = Done (Return c') s2
    ∧ get_current_connection 1 s2 = Some c'.
Proof.
  destruct (proj2 (release_serves_waiter 0 1 0 false
              (run [OpGet 0; OpGet 1;
                    OpStatus 0
                      (Some (TxOpen
                               (CallFails
                                  (Psycopg2Error
                                     (mkPgError OperationalError None))
                                  true)));
                    OpBreak 0]
                 (init 1 1))
              ltac:(apply wf_run, wf_init; lia)
              ltac:(vm_compute; reflexivity)
              ltac:(lia)
              ltac:(vm_compute; reflexivity))
              (put_connection 0 0 false
                 (run [OpGet 0; OpGet 1;
                       OpStatus 0
                         (Some (TxOpen
                                  (CallFails
                                     (Psycopg2Error
                                        (mkPgError OperationalError None))
                                     true)));
                       OpBreak 0]
                    (init 1 1))).2
              ltac:(vm_compute; reflexivity))
    as (c' & s2 & Hget & Hcur & _).
  exists c', s2. by split.
Defined.

(** X17: get and put are inverse on the pool.  When a thread takes the idle
    connection on top of the pool and returns it without error, the
    connection being open, with no transaction or one whose rollback
    completes, and the pool short of [minconn] idle connections without it,
    the pool is exactly as before and the thread is without a connection
    again. *)
Theorem get_put_round_trip t c rest s :
  wf s → sync_event s = true → get_current_connection t s = None →
  idle (connection_pool s) = rest ++ [c] →
  (c ∉ closed s) →
  tx_status s !! c = None ∨ tx_status s !! c = Some (TxOpen CallOk) →
  List.length rest < minconn (connection_pool s) →
  ∃ s1 s2,
    get_connection t s = Done (Return c) s1
    ∧ put_connection t c false s1 = (Return tt, s2)
    ∧ connection_pool s2 = connection_pool s
    ∧ closed s2 = closed s
    ∧ get_current_connection t s2 = None.
Proof.
  intros Hwf Hev Hcur Hidle Hopen Hstatus Hmin.
  rewrite (get_connection_free t s Hev Hcur).
  assert (Hnu : c ∉ used (connection_pool s)).
  { apply (wf_disjoint s Hwf). rewrite Hidle. set_solver. }
  destruct s as [st ev [mn mx idl usd nxt] cl ac calls status]. fields.
  subst idl. unfold acquire, getconn. fields.
  rewrite (proj2 (pop_Some (rest ++ [c]) c rest) eq_refl).
  eexists _, _. split; [reflexivity|].
  unfold put_connection, _put_connection, get_current_connection. fields.
  rewrite lookup_insert_eq. rewrite decide_False by (intros H; by apply H).
  unfold putconn, is_closed, mark_closed. fields.
  rewrite decide_True by set_solver.
  rewrite bool_decide_eq_true_2 by assumption.
  rewrite bool_decide_eq_false_2 by assumption. simpl.
  assert (Hpool : mkPool mn mx (rest ++ [c]) (({[c]} ∪ usd) ∖ {[c]}) nxt
                  = mkPool mn mx (rest ++ [c]) usd nxt).
  { f_equal. set_solver. }
  destruct Hstatus as [-> | ->]; fields;
    (split; [reflexivity|]); fields;
    (split; [exact Hpool|split; [reflexivity|by rewrite lookup_insert_eq]]).
Qed.

Lemma get_put_round_trip_witness :
  ∃ s1 s2,
    get_connection 0 (init 1 1) = Done (Return 0) s1
    ∧ put_connection 0 0 false s1 = (Return tt, s2)
    ∧ connection_pool s2 = connection_pool (init 1 1)
    ∧ closed s2 = closed (init 1 1)
    ∧ get_current_connection 0 s2 = None.
Proof.
  apply (get_put_round_trip 0 0 [] (init 1 1)).
  - apply wf_init. lia.
  - reflexivity.
  - reflexivity.
  - reflexivity.
  - vm_compute. set_solver.
  - left. reflexivity.
  - vm_compute. lia.
Defined.

End HandlerOwnership.

(** ** Transactions: the context manager as a whole, and retries *)
Module Transactions.
Import ConnectionHandler Views HandlerFacts HandlerOwnership.
Local Open Scope nat_scope.
#[local] Set Warnings "-clear-no-such-hyp".

(** [__exit__] when the connection's own exit handler is skipped or
    completes. *)
Lemma exit_completes t c exception conn_exit s :
  wf s → get_current_connection t s = Some c →
  c ∈ closed s ∨ conn_exit = CallOk →
  ∃ s', exit t c exception conn_exit s
        = (match has_pg_error exception with
           | Some base => Raise (DatabaseError base)
           | None => Return tt
           end, s')
        ∧ wf s'
        ∧ get_current_connection t s' = None
        ∧ sync_event s' = true
        ∧ (c ∉ used (connection_pool s'))
        ∧ size (used (connection_pool s')) ≠ maxconn (connection_pool s').
Proof.
  intros Hwf Hcur Hexit.
  assert (∃ s0, exit t c exception conn_exit s
                = exit_release t c exception s0
                ∧ wf s0 ∧ get_current_connection t s0 = Some c
                ∧ connection_pool s0 = connection_pool s
                ∧ (c ∈ closed s0
                   ∨ ∀ e closes,
                       tx_status s0 !! c ≠ Some (TxOpen (CallFails e closes))))
    as (s0 & -> & Hwf0 & Hcur0 & Hpool & Hok).
  { unfold exit, is_closed. destruct (decide (c ∈ closed s)) as [Hcl|Hopen].
    - rewrite bool_decide_eq_true_2 by assumption. exists s.
      repeat (split; [done|]). by left.
    - rewrite bool_decide_eq_false_2 by assumption.
      destruct Hexit as [?| ->]; [done|]. eexists. split; [reflexivity|].
      split; [destruct Hwf; by split|]. split; [exact Hcur|].
      split; [reflexivity|]. right. intros e closes. fields.
      by rewrite lookup_delete_eq. }
  clear Hexit. unfold exit_release, put_connection.
  pose proof (wf_current_used s0 Hwf0 t c Hcur0) as Hin.
  destruct (put_connection_total t c
              (bool_decide (is_Some (has_pg_error exception))) s0 Hcur0 Hin
              (or_intror Hok))
    as [s' Hput].
  pose proof (wf_put_connection t c
                (bool_decide (is_Some (has_pg_error exception))) s0 Hwf0)
    as Hwf'.
  rewrite Hput in *. simpl in Hwf'. exists s'. split.
  { destruct (has_pg_error exception); reflexivity. }
  apply put_connection_Return in Hput
    as (_ & _ & Hst & Hev & Hused & _ & Hmax & _).
  split; [exact Hwf'|]. split.
  { rewrite (get_current_cleared t t s0 s' Hst). by rewrite decide_True. }
  split; [exact Hev|]. split; [set_solver|].
  pose proof (wf_bound s0 Hwf0) as Hb.
  rewrite Hused, Hmax, size_difference, size_singleton by set_solver.
  assert (0 < size (used (connection_pool s0))); [|lia].
  destruct (decide (size (used (connection_pool s0)) = 0)) as [Hz|]; [|lia].
  apply size_empty_inv in Hz. set_solver.
Qed.

(** X18: a with block over the connection context, entered by a thread
    without a connection, with the pool not exhausted, a body that leaves the
    connection with the thread, and a commit or rollback that completes.  The
    block ends with the thread holding no connection and the connection out
    of the handed-out set; a psycopg2 error of the body, a pool error
    included, leaves the block as a [DatabaseError], any other exception as it
    is; and the thread can enter the next block at once. *)
Theorem with_context_releases t body s :
  wf s → sync_event s = true → get_current_connection t s = None →
  idle (connection_pool s) ≠ []
  ∨ size (used (connection_pool s)) ≠ maxconn (connection_pool s) →
  (∀ c s1, wf s1 → get_current_connection t s1 = Some c →
     wf (body c s1).2 ∧ get_current_connection t (body c s1).2 = Some c) →
  ∃ c s1 s',
    enter t s = Done (Return c) s1
    ∧ with_context t body CallOk s
      = Done (context_result (body c s1).1) s'
    ∧ wf s'
    ∧ get_current_connection t s' = None
    ∧ (c ∉ used (connection_pool s'))
    ∧ ∃ c' s'', enter t s' = Done (Return c') s''.
Proof.
  intros Hwf Hev Hcur Hroom Hbody.
  destruct (acquire_total t s Hroom) as (c & s1 & Hacq).
  assert (Henter : enter t s = Done (Return c) s1).
  { unfold enter. by rewrite (get_connection_free t s Hev Hcur). }
  pose proof (wf_acquire t s Hwf) as Hwf1. rewrite Hacq in Hwf1.
  simpl in Hwf1. pose proof (enter_current t s c s1 Henter) as Hcur1.
  destruct (Hbody c s1 Hwf1 Hcur1) as [Hwf2 Hcur2].
  destruct (exit_completes t c (body c s1).1 CallOk (body c s1).2
              Hwf2 Hcur2 (or_intror eq_refl))
    as (s' & Hexit & Hwf' & Hcur' & Hev' & Hnu & Hfree).
  exists c, s1, s'. split; [exact Henter|]. split.
  { unfold with_context. rewrite Henter.
    destruct (body c s1) as [exception s2]. simpl in *. rewrite Hexit.
    destruct exception as [[]|]; reflexivity. }
  do 3 (split; [done|]).
  unfold enter. rewrite (get_connection_free t s' Hev' Hcur').
  apply acquire_total. by right.
Qed.

Lemma with_context_releases_witness :
  ∃ c s1 s',
    enter 0 (init 1 1) = Done (Return c) s1
    ∧ with_context 0
        (fun c s =>
           (Some (Psycopg2Error (mkPgError OtherPgError (Some "23505"))),
            (step (OpStatus c (Some (TxOpen CallOk))) s).1))
        CallOk (init 1 1)
      = Done (context_result
                (Some (Psycopg2Error (mkPgError OtherPgError (Some "23505")))))
          s'
    ∧ wf s'
    ∧ get_current_connection 0 s' = None
    ∧ (c ∉ used (connection_pool s'))
    ∧ ∃ c' s'', enter 0 s' = Done (Return c') s''.
Proof.
  apply (with_context_releases 0
           (fun c s =>
              (Some (Psycopg2Error (mkPgError OtherPgError (Some "23505"))),
               (step (OpStatus c (Some (TxOpen CallOk))) s).1))
           (init 1 1)).
  - apply wf_init. lia.
  - reflexivity.
  - reflexivity.
  - left. discriminate.
  - intros c s1 Hwf Hcur. split; [by apply wf_step|exact Hcur].
Defined.

(** X19: which failures of a transaction the retry wrapper takes up.  When
    the connection's own exit handler is skipped or completes, a psycopg2
    error of the body leaves [__exit__] as a [DatabaseError] that is retried
    exactly when it is an [OperationalError] without SQL code, and a pool
    error of the body leaves it as a [DatabaseError] that is not retried.  A
    psycopg2 error raised by the commit or rollback of an open connection
    leaves [__exit__] untranslated, whether or not it closes the connection,
    and is never retried. *)
Theorem transaction_failures_retried t c s :
  (wf s → get_current_connection t s = Some c →
   ∀ conn_exit, c ∈ closed s ∨ conn_exit = CallOk →
     (∀ e,
        Retry.retryable (exit t c (Some (Psycopg2Error e)) conn_exit s).1
        = true
        ↔ pg_class e = OperationalError ∧ pgcode e = None)
     ∧ (exit t c (Some PoolError) conn_exit s).1
       = Raise (DatabaseError PoolBase)
     ∧ Retry.retryable (exit t c (Some PoolError) conn_exit s).1 = false)
  ∧ ((c ∉ closed s) →
     ∀ e closes exception,
       exit t c exception (CallFails (Psycopg2Error e) closes) s
       = (Raise (Psycopg2Error e), mark_closed c closes s)
       ∧ Retry.retryable
           (exit t c exception (CallFails (Psycopg2Error e) closes) s).1
         = false).
Proof.
  split.
  - intros Hwf Hcur conn_exit Hexit. split; [intros e|].
    + destruct (exit_completes t c (Some (Psycopg2Error e)) conn_exit s
                  Hwf Hcur Hexit) as (s' & -> & _).
      simpl. destruct e as [cls code]. simpl.
      destruct cls; simpl; [|split; [discriminate|intros [[=] _]]..].
      rewrite bool_decide_eq_true. tauto.
    + destruct (exit_completes t c (Some PoolError) conn_exit s
                  Hwf Hcur Hexit) as (s' & -> & _).
      by split.
  - intros Hopen e closes exception.
    assert (Hexit : exit t c exception (CallFails (Psycopg2Error e) closes) s
                    = (Raise (Psycopg2Error e), mark_closed c closes s)).
    { unfold exit, is_closed. by rewrite bool_decide_eq_false_2. }
    by rewrite Hexit.
Qed.

Lemma transaction_failures_retried_witness :
  Retry.retryable
    (exit 0 0 (Some (Psycopg2Error (mkPgError OperationalError None)))
       CallOk (run [OpGet 0; OpBreak 0] (init 1 1))).1 = true
  ∧ Retry.retryable
      (exit 0 0 None
         (CallFails (Psycopg2Error (mkPgError OperationalError None)) true)
         (step (OpGet 0) (init 1 1)).1).1 = false.
Proof.
  split.
  - apply (proj1 (transaction_failures_retried 0 0
                    (run [OpGet 0; OpBreak 0] (init 1 1)))).
    + apply wf_run, wf_init. lia.
    + vm_compute. reflexivity.
    + left. vm_compute. set_solver.
    + split; reflexivity.
  - apply (proj2 (transaction_failures_retried 0 0
                    (step (OpGet 0) (init 1 1)).1)).
    vm_compute. set_solver.
Defined.

End Transactions.
